(** * Posterior-predictive summary of [pystan_tutorial_1.py]

    A shallow embedding of the one piece of logic the two scripts
    [pystan_tutorial_1.py] and [2019-01-14/pystan_tutorial_1.py] share:
    the loop that turns the table of posterior draws [stan_results] into
    the table [summary_stan] of per-[x] quantiles, and the two derived
    error-bar columns.  The two files differ in that part by layout only,
    so one embedding serves both.

    Numbers are exact rationals ([Q]): float64 without rounding and
    without overflow; a missing value (pandas' NaN) is [None].  Where
    float64 leaves the rationals by overflow, module [Float64] has the
    arithmetic of the loop in binary64, and the facts that depend on it
    are stated for draws of [moderate] magnitude.  Data frames live in a
    heap of objects that program variables refer to, so that
    [stan_results.copy()] and the in-place column assignments can be told
    apart from aliasing. *)

From Stdlib Require Import QArith Qround Qabs Lqa Lia ZArith List String.
From Stdlib Require Import Permutation Sorted.
From Stdlib Require Import PrimFloat Uint63Axioms.
From stdpp Require Import gmap strings list fin_maps pretty.

Set Warnings "-inexact-float".

Local Open Scope Q_scope.

(** ** Cells and series *)

Module Cell.

(** A cell of a float column: a number, or NaN / missing. *)
Definition cell := option Q.

Definition nan : cell := None.

(** Arithmetic propagates NaN.  On numbers it is the exact operation:
    what float64 computes when it neither rounds nor overflows.  An
    overflowing float64 operation gives an infinity instead, and
    infinities turn into NaN further on (module [Float64] below); facts
    that would fail there are stated for draws of [moderate]
    magnitude. *)
Definition binop (f : Q -> Q -> Q) (a b : cell) : cell :=
  match a, b with
  | Some u, Some v => Some (f u v)
  | _, _ => None
  end.

Definition add := binop Qplus.
Definition sub := binop Qminus.
Definition mul := binop Qmult.

End Cell.

Abbreviation cell := Cell.cell.

Module Series.

(** A column taken out of a frame: its cells in the order of the frame's
    index.  All series the scripts combine come from one frame, so
    pandas' index alignment is position by position. *)
Definition series := list cell.

Definition add (a b : series) : series := zip_with Cell.add a b.
Definition sub (a b : series) : series := zip_with Cell.sub a b.
Definition mul (a b : series) : series := zip_with Cell.mul a b.

(** The values that are present; pandas skips NaN in reductions. *)
Fixpoint dropna (s : series) : list Q :=
  match s with
  | [] => []
  | Some v :: s' => v :: dropna s'
  | None :: s' => dropna s'
  end.

End Series.

Abbreviation series := Series.series.

(** ** Quantiles *)

Module Quantile.

(** Modelled from the spec: [Series.quantile] is pandas library code and
    is not part of the repository's sources.  [insert] and [sort] put the
    sample in non-decreasing order, every tied value kept, which is what
    the library's selection of order statistics amounts to. *)
Fixpoint insert (v : Q) (l : list Q) : list Q :=
  match l with
  | [] => [v]
  | u :: l' => if Qle_bool v u then v :: u :: l' else u :: insert v l'
  end.

Fixpoint sort (l : list Q) : list Q :=
  match l with
  | [] => []
  | v :: l' => insert v (sort l')
  end.

(** The [k]-th order statistic, counted from 0. *)
Definition order_stat (l : list Q) (k : Z) : Q :=
  nth (Z.to_nat k) (sort l) 0.

(** Modelled from the spec: the interpolation step of [Series.quantile]
    (pandas, not part of the sources) at a virtual index, computed the
    way the library does: the order statistic at the floor of the index
    and the next one (the last one when there is no next), combined as
    [a + (b - a) * gamma] with [gamma] the fractional part of the
    index. *)
Definition at_index (l : list Q) (virtual_index : Q) : Q :=
  let n := Z.of_nat (length l) in
  let previous := Qfloor virtual_index in
  let next := Z.min (previous + 1) (n - 1) in
  let gamma := virtual_index - inject_Z previous in
  let a := order_stat l previous in
  let b := order_stat l next in
  a + (b - a) * gamma.

(** Modelled from the spec: the linear-interpolation estimator of
    section 4.1, the default of [Series.quantile] (pandas, not part of
    the sources): the interpolation at the virtual index [q * (n - 1)]. *)
Definition linear (l : list Q) (q : Q) : Q :=
  let n := Z.of_nat (length l) in
  at_index l (q * inject_Z (n - 1)).

(** The estimator in the words of the spec: when the index is an
    integer the order statistic at the index, otherwise the linear
    interpolation between the two order statistics around it. *)
Definition spec_linear (l : list Q) (p : Q) : Q :=
  let n := Z.of_nat (length l) in
  let index := p * inject_Z (n - 1) in
  if Qeq_bool index (inject_Z (Qfloor index))
  then order_stat l (Qfloor index)
  else
    let lo := order_stat l (Qfloor index) in
    let hi := order_stat l (Qceiling index) in
    lo + (index - inject_Z (Qfloor index)) * (hi - lo).

(** The library's check of a level: a probability in [0, 1]. *)
Definition valid_level (q : Q) : bool := Qle_bool 0 q && Qle_bool q 1.

End Quantile.

(** ** Python errors and results *)

(** The exceptions the block can meet.  [DanglingRef] stands for a
    variable whose object is gone, which Python rules out. *)
Inductive pyerr :=
| NameError (name : string)
| KeyError (key : string)
| ValueError
| DanglingRef.

Inductive result (A : Type) :=
| Ok (a : A)
| Raise (e : pyerr).
Arguments Ok {A} a.
Arguments Raise {A} e.

(** Modelled from the spec: the value of [Series.quantile(q=...)] on a
    float column (pandas, not part of the sources) for a level in
    [0, 1].  NaN cells are skipped; a series with no value left has an
    undefined quantile, which pandas returns as NaN; otherwise the
    linear-interpolation estimator. *)
Definition quantile_value (s : series) (q : Q) : cell :=
  match Series.dropna s with
  | [] => Cell.nan
  | v :: vs => Some (Quantile.linear (v :: vs) q)
  end.

(** Modelled from the spec: [Series.quantile(q=...)] (pandas, not part
    of the sources).  The level is checked first, [ValueError] outside
    [0, 1]. *)
Definition quantile (s : series) (q : Q) : result cell :=
  if Quantile.valid_level q then Ok (quantile_value s q)
  else Raise ValueError.

(** ** Data frames *)

(** A frame: the row labels and the columns in their order, each column
    holding one cell per row label. *)
Record DataFrame := mkDataFrame {
  index : list Z;
  columns : list (string * series)
}.

Module Frame.

(** [pd.DataFrame(columns=cols, index=idx)]: every cell missing. *)
Definition create (cols : list string) (idx : list Z) : DataFrame :=
  mkDataFrame idx (map (fun c => (c, repeat Cell.nan (length idx))) cols).

Fixpoint lookup_column (c : string) (cols : list (string * series))
  : option series :=
  match cols with
  | [] => None
  | (k, s) :: cols' => if String.eqb k c then Some s else lookup_column c cols'
  end.

(** [df[c]] *)
Definition getitem (df : DataFrame) (c : string) : result series :=
  match lookup_column c (columns df) with
  | Some s => Ok s
  | None => Raise (KeyError c)
  end.

(** An existing column keeps its place, a new one goes last. *)
Fixpoint replace_column (c : string) (s : series)
  (cols : list (string * series)) : list (string * series) :=
  match cols with
  | [] => [(c, s)]
  | (k, s0) :: cols' =>
      if String.eqb k c then (k, s) :: cols'
      else (k, s0) :: replace_column c s cols'
  end.

(** [df[c] = s] *)
Definition setitem (df : DataFrame) (c : string) (s : series) : DataFrame :=
  mkDataFrame (index df) (replace_column c s (columns df)).

(** [df[c] = v] for a scalar [v]: the value in every row. *)
Definition setitem_scalar (df : DataFrame) (c : string) (v : cell)
  : DataFrame :=
  setitem df c (repeat v (length (index df))).

Fixpoint position (r : Z) (idx : list Z) : option nat :=
  match idx with
  | [] => None
  | r0 :: idx' =>
      if Z.eqb r0 r then Some O else option_map S (position r idx')
  end.

(** [df.loc[r, c] = v] on an index of distinct labels: an unknown row
    label or column label enlarges the frame with missing cells first. *)
Definition loc_setitem (df : DataFrame) (r : Z) (c : string) (v : cell)
  : DataFrame :=
  let df1 :=
    match position r (index df) with
    | Some _ => df
    | None =>
        mkDataFrame (index df ++ [r])
          (map (fun ks => (fst ks, snd ks ++ [Cell.nan])) (columns df))
    end in
  let df2 :=
    match lookup_column c (columns df1) with
    | Some _ => df1
    | None => setitem_scalar df1 c Cell.nan
    end in
  match position r (index df2), lookup_column c (columns df2) with
  | Some i, Some s => setitem df2 c (<[i := v]> s)
  | _, _ => df2
  end.

(** The cell at row label [r] of column [c], when both exist. *)
Definition at_ (df : DataFrame) (r : Z) (c : string) : option cell :=
  match position r (index df), lookup_column c (columns df) with
  | Some i, Some s => s !! i
  | _, _ => None
  end.

Definition column_names (df : DataFrame) : list string :=
  map fst (columns df).

End Frame.

(** ** Program state: variables, and the heap of frames they refer to *)

Definition ref := positive.

Record State := mkState {
  vars : gmap string ref;
  heap : gmap ref DataFrame
}.

Definition M (A : Type) : Type := State -> result (A * State).

#[export] Instance M_ret : MRet M := fun A (a : A) st => Ok (a, st).

#[export] Instance M_bind : MBind M := fun A B (k : A -> M B) (m : M A) st =>
  match m st with
  | Ok (a, st') => k a st'
  | Raise e => Raise e
  end.

Definition lift {A} (x : result A) : M A :=
  fun st => match x with Ok a => Ok (a, st) | Raise e => Raise e end.

(** Reading a variable. *)
Definition name (v : string) : M ref :=
  fun st =>
    match vars st !! v with
    | Some r => Ok (r, st)
    | None => Raise (NameError v)
    end.

Definition deref (r : ref) : M DataFrame :=
  fun st =>
    match heap st !! r with
    | Some df => Ok (df, st)
    | None => Raise DanglingRef
    end.

(** A new object, at a reference no object has. *)
Definition new (df : DataFrame) : M ref :=
  fun st =>
    let r := fresh (dom (heap st)) in
    Ok (r, mkState (vars st) (<[r := df]> (heap st))).

(** [v = <object>] *)
Definition assign (v : string) (r : ref) : M unit :=
  fun st => Ok (tt, mkState (<[v := r]> (vars st)) (heap st)).

(** In-place change of the object at [r]. *)
Definition mutate (r : ref) (df : DataFrame) : M unit :=
  fun st => Ok (tt, mkState (vars st) (<[r := df]> (heap st))).

(** [v[c]] *)
Definition getitem (v c : string) : M series :=
  r ← name v; df ← deref r; lift (Frame.getitem df c).

(** [v[c] = s] *)
Definition setitem (v c : string) (s : series) : M unit :=
  r ← name v; df ← deref r; mutate r (Frame.setitem df c s).

(** [v[c] = x] for a scalar *)
Definition setitem_scalar (v c : string) (x : cell) : M unit :=
  r ← name v; df ← deref r; mutate r (Frame.setitem_scalar df c x).

(** [v.loc[r, c] = x] *)
Definition loc_setitem (v : string) (r : Z) (c : string) (x : cell)
  : M unit :=
  o ← name v; df ← deref o; mutate o (Frame.loc_setitem df r c x).

(** [v.copy()]: a new object with the same contents. *)
Definition copy (v : string) : M ref :=
  r ← name v; df ← deref r; new df.

Fixpoint for_each {A} (l : list A) (body : A -> M unit) : M unit :=
  match l with
  | [] => mret tt
  | a :: l' => body a;; for_each l' body
  end.

(** [range(a, b)] *)
Definition range (a b : Z) : list Z :=
  map (fun i => (a + Z.of_nat i)%Z) (seq 0 (Z.to_nat (b - a))).

(** The column label [f"y_{x}"]. *)
Definition y_ (x : Z) : string := "y_" +:+ pretty x.

(** ** The scripts' summary block *)

(** One pass of [for x in range(0, 6):]. *)
Definition loop_body (x : Z) : M unit :=
  setitem_scalar "pred_df_stan" "x" (Some (inject_Z x));;
  alpha ← getitem "pred_df_stan" "alpha";
  beta ← getitem "pred_df_stan" "beta";
  xs ← getitem "pred_df_stan" "x";
  setitem "pred_df_stan" (y_ x) (Series.add alpha (Series.mul beta xs));;
  y ← getitem "pred_df_stan" (y_ x);
  q ← lift (quantile y 0.025);
  loc_setitem "summary_stan" x "y_025" q;;
  y ← getitem "pred_df_stan" (y_ x);
  q ← lift (quantile y 0.5);
  loc_setitem "summary_stan" x "y_500" q;;
  y ← getitem "pred_df_stan" (y_ x);
  q ← lift (quantile y 0.975);
  loc_setitem "summary_stan" x "y_975" q.

(** From [pred_df_stan = stan_results.copy()] to the end of the loop. *)
Definition summarize : M unit :=
  r ← copy "stan_results";
  assign "pred_df_stan" r;;
  r ← new (Frame.create ["y_025"; "y_50"; "y_975"] (range 0 6));
  assign "summary_stan" r;;
  for_each (range 0 6) loop_body.

(** What [plt.errorbar] is given: the x values, the centre line and the
    two rows of [yerr]. *)
Record Errorbar := mkErrorbar {
  eb_x : list Z;
  eb_y : series;
  eb_yerr : series * series
}.

(** The two difference columns and the arguments of the error-bar chart. *)
Definition errorbar : M Errorbar :=
  lo ← getitem "summary_stan" "y_025";
  mid ← getitem "summary_stan" "y_500";
  setitem "summary_stan" "ci_lower_diff" (Series.sub lo mid);;
  mid ← getitem "summary_stan" "y_500";
  hi ← getitem "summary_stan" "y_975";
  setitem "summary_stan" "ci_upper_diff" (Series.sub mid hi);;
  r ← name "summary_stan";
  df ← deref r;
  y ← getitem "summary_stan" "y_500";
  lower ← getitem "summary_stan" "ci_lower_diff";
  upper ← getitem "summary_stan" "ci_upper_diff";
  mret (mkErrorbar (index df) y (lower, upper)).

(** ** Draw sets *)

(** One posterior draw of the parameters of [linear.stan]. *)
Record Draw := mkDraw { alpha : Q; beta : Q; sigma : Q }.

(** The frame [pd.DataFrame(stan_fit.extract())] of a draw set: one row
    per draw, labelled from 0. *)
Definition frame_of_draws (ds : list Draw) : DataFrame :=
  mkDataFrame (range 0 (Z.of_nat (length ds)))
    [("alpha", map (fun d => Some (alpha d)) ds);
     ("beta", map (fun d => Some (beta d)) ds);
     ("sigma", map (fun d => Some (sigma d)) ds)].

(** A state in which [stan_results] is the frame at [r]. *)
Definition has_draws (st : State) (r : ref) (df : DataFrame) : Prop :=
  vars st !! "stan_results" = Some r /\ heap st !! r = Some df.

(** The state the block starts from when nothing but the draws exists. *)
Definition initial (ds : list Draw) : State :=
  mkState {["stan_results" := 1%positive]}
          {[1%positive := frame_of_draws ds]}.

(** The frame a variable refers to. *)
Definition frame_of (st : State) (v : string) : option DataFrame :=
  r ← vars st !! v; heap st !! r.

(** The draw set of the spec's scenario: intercepts 0, 2, 4, slope 1. *)
Definition draws3 : list Draw :=
  [mkDraw 0 1 1; mkDraw 2 1 1; mkDraw 4 1 1].

(** ** Reading the outcome *)

(** The value of every draw at the query point [x]. *)
Definition predictive_samples (ds : list Draw) (x : Z) : list Q :=
  map (fun d => alpha d + beta d * inject_Z x) ds.

(** A row of the summary table. *)
Record Row := mkRow { lower : cell; median : cell; upper : cell }.

Definition cell_at (df : DataFrame) (r : Z) (c : string) : cell :=
  default Cell.nan (Frame.at_ df r c).

(** The row of the table at the query point [x]: the lower bound is
    column [y_025], the median [y_500], the upper bound [y_975]. *)
Definition row_at (df : DataFrame) (x : Z) : Row :=
  mkRow (cell_at df x "y_025") (cell_at df x "y_500") (cell_at df x "y_975").

(** The rows of a summary table, by row label in index order. *)
Definition rows (df : DataFrame) : list (Z * Row) :=
  map (fun x => (x, row_at df x)) (index df).

(** The table the block leaves in [summary_stan], or the error raised. *)
Definition summary_of (st : State) : result DataFrame :=
  match summarize st with
  | Ok (_, st') =>
      match frame_of st' "summary_stan" with
      | Some df => Ok df
      | None => Raise (NameError "summary_stan")
      end
  | Raise e => Raise e
  end.

(** The summary table of a draw set. *)
Definition summary_table (ds : list Draw) : result DataFrame :=
  summary_of (initial ds).

(** ** The block's effect on its two frames *)

(** The column [alpha + beta * x] over [n] rows. *)
Definition predictions (a b : series) (n : nat) (x : Z) : series :=
  Series.add a (Series.mul b (repeat (Some (inject_Z x)) n)).

(** What one pass of the loop does to [pred_df_stan]. *)
Definition pred_step (a b : series) (pdf : DataFrame) (x : Z) : DataFrame :=
  Frame.setitem (Frame.setitem_scalar pdf "x" (Some (inject_Z x))) (y_ x)
    (predictions a b (length (index pdf)) x).

(** What one pass of the loop does to [summary_stan], the quantile of
    the pass's column at level [q] being [cellf x q]. *)
Definition summary_step (cellf : Z -> Q -> cell) (sdf : DataFrame) (x : Z)
  : DataFrame :=
  Frame.loc_setitem
    (Frame.loc_setitem
       (Frame.loc_setitem sdf x "y_025" (cellf x 0.025))
       x "y_500" (cellf x 0.5))
    x "y_975" (cellf x 0.975).

(** The state [st] with the frames of [pred_df_stan] and [summary_stan],
    at [rp] and [rs], set to [pdf] and [sdf]. *)
Definition two (st : State) (rp rs : ref) (pdf sdf : DataFrame) : State :=
  mkState (vars st) (<[rs := sdf]> (<[rp := pdf]> (heap st))).

(** [pred_df_stan] and [summary_stan] refer to two different objects. *)
Definition bound (st : State) (rp rs : ref) : Prop :=
  vars st !! "pred_df_stan" = Some rp /\
  vars st !! "summary_stan" = Some rs /\
  rp <> rs.

(** The quantile at level [q] of the column the pass for [x] computes. *)
Definition quantile_cell (a b : series) (n : nat) (x : Z) (q : Q) : cell :=
  quantile_value (predictions a b n x) q.

(** The variables after the two assignments that open the block. *)
Definition rebound (st : State) (rp rs : ref) : State :=
  mkState (<["summary_stan" := rs]> (<["pred_df_stan" := rp]> (vars st)))
          (heap st).

(** The summary table in closed form, [cellf x q] being the quantile at
    level [q] for the query point [x]. *)
Definition summary_closed (cellf : Z -> Q -> cell) : DataFrame :=
  mkDataFrame (range 0 6)
    [("y_025", map (fun x => cellf x 0.025) (range 0 6));
     ("y_50", repeat Cell.nan 6);
     ("y_975", map (fun x => cellf x 0.975) (range 0 6));
     ("y_500", map (fun x => cellf x 0.5) (range 0 6))].

(** The quantile at level [q] of the predictive samples at [x]. *)
Definition draw_cell (ds : list Draw) (x : Z) (q : Q) : cell :=
  quantile_value (map Some (predictive_samples ds x)) q.

(** What the block leaves in [summary_stan], as a function of the frame
    of draws alone. *)
Definition outcome (df : DataFrame) : result DataFrame :=
  match Frame.lookup_column "alpha" (columns df),
        Frame.lookup_column "beta" (columns df) with
  | Some a, Some b =>
      Ok (summary_closed (quantile_cell a b (length (index df))))
  | None, _ => Raise (KeyError "alpha")
  | Some _, None => Raise (KeyError "beta")
  end.

(** The summary table once [errorbar] has added its two columns. *)
Definition with_diffs (sdf : DataFrame) (lo mid hi : series) : DataFrame :=
  Frame.setitem
    (Frame.setitem sdf "ci_lower_diff" (Series.sub lo mid))
    "ci_upper_diff" (Series.sub mid hi).

(** A row whose three cells are numbers, equal to [lo], [mid], [hi]. *)
Definition row_is (r : Row) (lo mid hi : Q) : Prop :=
  exists l m u,
    lower r = Some l /\ median r = Some m /\ upper r = Some u /\
    l == lo /\ m == mid /\ u == hi.

(** A row whose three cells are numbers in non-decreasing order. *)
Definition row_ordered (r : Row) : Prop :=
  exists l m u,
    lower r = Some l /\ median r = Some m /\ upper r = Some u /\
    l <= m /\ m <= u.

(** A row whose three cells are missing. *)
Definition row_missing (r : Row) : Prop :=
  lower r = Cell.nan /\ median r = Cell.nan /\ upper r = Cell.nan.

(** ** Coverage, in the words of the spec *)

(** The scripts have no coverage variable: their levels are the constants
    0.025 and 0.975.  The spec derives the levels from a coverage; these
    are its two tail levels. *)
Definition lower_tail (coverage : Q) : Q := (1 - coverage) / 2.

Definition upper_tail (coverage : Q) : Q := 1 - (1 - coverage) / 2.

(** ** The block with its literals as parameters *)

(** The scripts have neither a coverage nor a list of query points: the
    levels are the literals 0.025, 0.5 and 0.975 of the three [quantile]
    calls, and the query points the literal [range(0, 6)], written once
    for the index of [summary_stan] and once for the loop.  What the
    spec says of other levels and query points is stated on the same
    statements with these literals taken as parameters; the column
    labels stay as they are.  [loop_body] and [summarize] are the
    instances at the scripts' literals. *)
Definition loop_body_at (lo mid hi : Q) (x : Z) : M unit :=
  setitem_scalar "pred_df_stan" "x" (Some (inject_Z x));;
  alpha ← getitem "pred_df_stan" "alpha";
  beta ← getitem "pred_df_stan" "beta";
  xs ← getitem "pred_df_stan" "x";
  setitem "pred_df_stan" (y_ x) (Series.add alpha (Series.mul beta xs));;
  y ← getitem "pred_df_stan" (y_ x);
  q ← lift (quantile y lo);
  loc_setitem "summary_stan" x "y_025" q;;
  y ← getitem "pred_df_stan" (y_ x);
  q ← lift (quantile y mid);
  loc_setitem "summary_stan" x "y_500" q;;
  y ← getitem "pred_df_stan" (y_ x);
  q ← lift (quantile y hi);
  loc_setitem "summary_stan" x "y_975" q.

Definition summarize_at (query_points : list Z) (lo mid hi : Q) : M unit :=
  r ← copy "stan_results";
  assign "pred_df_stan" r;;
  r ← new (Frame.create ["y_025"; "y_50"; "y_975"] query_points);
  assign "summary_stan" r;;
  for_each query_points (loop_body_at lo mid hi).

(** The table [summarize_at] leaves in [summary_stan] when nothing but
    the draws exists, or the error raised. *)
Definition summary_at (ds : list Draw) (query_points : list Z) (lo mid hi : Q)
  : result DataFrame :=
  match summarize_at query_points lo mid hi (initial ds) with
  | Ok (_, st') =>
      match frame_of st' "summary_stan" with
      | Some df => Ok df
      | None => Raise (NameError "summary_stan")
      end
  | Raise e => Raise e
  end.

(** The block at the two tail levels of a coverage, and the median. *)
Definition summary_with (ds : list Draw) (query_points : list Z) (coverage : Q)
  : result DataFrame :=
  summary_at ds query_points (lower_tail coverage) 0.5 (upper_tail coverage).

(** What one pass of [loop_body_at] does to [summary_stan]. *)
Definition summary_step_at (cellf : Z -> Q -> cell) (lo mid hi : Q)
  (sdf : DataFrame) (x : Z) : DataFrame :=
  Frame.loc_setitem
    (Frame.loc_setitem
       (Frame.loc_setitem sdf x "y_025" (cellf x lo))
       x "y_500" (cellf x mid))
    x "y_975" (cellf x hi).

(** The table of [summarize_at] in closed form, for query points that
    are all different. *)
Definition summary_closed_at (cellf : Z -> Q -> cell) (query_points : list Z)
  (lo mid hi : Q) : DataFrame :=
  mkDataFrame query_points
    [("y_025", map (fun x => cellf x lo) query_points);
     ("y_50", repeat Cell.nan (length query_points));
     ("y_975", map (fun x => cellf x hi) query_points);
     ("y_500", map (fun x => cellf x mid) query_points)].

(** The interval of [wide] contains that of [narrow]: its lower bound is
    no higher and its upper bound no lower. *)
Definition row_widens (narrow wide : Row) : Prop :=
  exists lo1 hi1 lo2 hi2,
    lower narrow = Some lo1 /\ upper narrow = Some hi1 /\
    lower wide = Some lo2 /\ upper wide = Some hi2 /\
    lo2 <= lo1 /\ hi1 <= hi2.

(** ** Magnitudes that binary64 holds *)

(** The scripts compute in float64, the embedding in the rationals.
    The two part where float64 overflows.  A draw is [moderate] when its
    intercept and slope are at most [2^1000] in absolute value: with
    query points 0 .. 5 every sum, product and difference of the loop
    and of the chart step then stays below [2^1006], and the largest
    float64 is just under [2^1024], so none of them overflows. *)
Definition magnitude_bound : Q := inject_Z (2 ^ 1000).

Definition moderate (d : Draw) : Prop :=
  Qabs (alpha d) <= magnitude_bound /\ Qabs (beta d) <= magnitude_bound.

(** ** The loop's arithmetic in binary64 *)

Module Float64.

Local Open Scope float_scope.

(** A draw as the scripts hold it, in float64. *)
Record Draw := mkDraw { alpha : float; beta : float; sigma : float }.

(** The integer [x] of the loop as a float64 (exact for the integers the
    loop meets). *)
Definition of_int (x : Z) : float :=
  if (x <? 0)%Z then - of_uint63 (of_Z (- x)) else of_uint63 (of_Z x).

(** One cell of [pred_df_stan["alpha"] + pred_df_stan["beta"] *
    pred_df_stan["x"]]: the product and the sum round to float64 and
    overflow to an infinity. *)
Definition prediction (d : Draw) (x : Z) : float := alpha d + beta d * of_int x.

Definition is_nan (v : float) : bool := negb (v =? v).

Definition dropna (l : list float) : list float :=
  filter (fun v => negb (is_nan v)) l.

Fixpoint insert (v : float) (l : list float) : list float :=
  match l with
  | [] => [v]
  | u :: l' => if v <=? u then v :: u :: l' else u :: insert v l'
  end.

Fixpoint sort (l : list float) : list float :=
  match l with
  | [] => []
  | v :: l' => insert v (sort l')
  end.

Definition order_stat (l : list float) (k : nat) : float :=
  nth k (sort l) nan.

(** The floor of a virtual index between 0 and [k]. *)
Fixpoint floor_upto (t : float) (k : nat) : nat :=
  match k with
  | O => O
  | S k' => if of_int (Z.of_nat k) <=? t then k else floor_upto t k'
  end.

(** Modelled from the spec: the interpolation of [Series.quantile]
    (pandas and numpy, not part of the sources) between two order
    statistics, as the library computes it in float64:
    [a + (b - a) * gamma], and [b - (b - a) * (1 - gamma)] from
    [gamma = 0.5] on. *)
Definition lerp (a b gamma : float) : float :=
  if 0.5 <=? gamma then b - (b - a) * (1 - gamma) else a + (b - a) * gamma.

(** Modelled from the spec: [Quantile.at_index] in float64. *)
Definition at_index (l : list float) (virtual_index : float) : float :=
  let n := length l in
  let previous := floor_upto virtual_index (n - 1) in
  let next := Nat.min (previous + 1) (n - 1) in
  let gamma := virtual_index - of_int (Z.of_nat previous) in
  lerp (order_stat l previous) (order_stat l next) gamma.

(** Modelled from the spec: [Quantile.linear] in float64. *)
Definition linear (l : list float) (q : float) : float :=
  at_index l (q * of_int (Z.of_nat (length l) - 1)).

(** Modelled from the spec: [quantile_value] in float64, NaN being a
    float here. *)
Definition quantile_value (s : list float) (q : float) : float :=
  match dropna s with
  | [] => nan
  | v :: vs => linear (v :: vs) q
  end.

(** A row of the summary table: lower bound, median, upper bound. *)
Definition Row : Type := float * float * float.

(** The three cells one pass of the loop writes for the query point
    [x], at the given levels. *)
Definition row_at (lo mid hi : float) (ds : list Draw) (x : Z) : Row :=
  let y := map (fun d => prediction d x) ds in
  (quantile_value y lo, quantile_value y mid, quantile_value y hi).

(** The row of the scripts: levels 0.025, 0.5 and 0.975. *)
Definition row : list Draw -> Z -> Row := row_at 0.025 0.5 0.975.

Definition lower_tail (coverage : float) : float := (1 - coverage) / 2.

Definition upper_tail (coverage : float) : float := 1 - (1 - coverage) / 2.

(** The row at the tail levels of a coverage. *)
Definition row_with (coverage : float) : list Draw -> Z -> Row :=
  row_at (lower_tail coverage) 0.5 (upper_tail coverage).

(** lower <= median <= upper, as float64 compares; a comparison with
    NaN is false. *)
Definition ordered (r : Row) : bool :=
  let '(lo, mid, hi) := r in (lo <=? mid) && (mid <=? hi).

(** lower = median = upper = [v], as float64 compares. *)
Definition all_equal (r : Row) (v : float) : bool :=
  let '(lo, mid, hi) := r in (lo =? v) && (mid =? v) && (hi =? v).

(** The interval of [wide] contains that of [narrow]. *)
Definition widens (narrow wide : Row) : bool :=
  let '(lo1, _, hi1) := narrow in
  let '(lo2, _, hi2) := wide in
  (lo2 <=? lo1) && (hi1 <=? hi2).

(** A draw with the intercept and the slope [1e308]; the largest
    float64 is about [1.8e308]. *)
Definition huge : Draw := mkDraw 1e308 1e308 1.

(** The draw set of the spec's scenario. *)
Definition draws3 : list Draw := [mkDraw 0 1 1; mkDraw 2 1 1; mkDraw 4 1 1].

End Float64.

(** The state a run of the block leaves (the starting state if it
    raises). *)
Definition after_run (st : State) : State :=
  match summarize st with
  | Ok (_, st') => st'
  | Raise _ => st
  end.

(** ** The rest of the scripts *)

(** Sequencing of results. *)
#[export] Instance result_bind : MBind result := fun A B (k : A -> result B) x =>
  match x with
  | Ok a => k a
  | Raise e => Raise e
  end.

(** *** The chart of the OLS fit *)

(** What [plt.errorbar] is given when the x values are a column. *)
Record Chart := mkChart {
  ch_x : series;
  ch_y : series;
  ch_yerr : series * series
}.

(** The two difference columns of [pred_df_ols] and the arguments of the
    error-bar chart of the OLS fit.  [pred_df_ols] is the frame
    statsmodels returns; it is taken as it comes. *)
Definition ols_errorbar : M Chart :=
  mean ← getitem "pred_df_ols" "mean";
  lo ← getitem "pred_df_ols" "mean_ci_lower";
  setitem "pred_df_ols" "ci_lower_diff" (Series.sub mean lo);;
  hi ← getitem "pred_df_ols" "mean_ci_upper";
  mean ← getitem "pred_df_ols" "mean";
  setitem "pred_df_ols" "ci_upper_diff" (Series.sub hi mean);;
  x ← getitem "df" "x";
  y ← getitem "pred_df_ols" "mean";
  lower ← getitem "pred_df_ols" "ci_lower_diff";
  upper ← getitem "pred_df_ols" "ci_upper_diff";
  mret (mkChart x y (lower, upper)).

(** One row of the frame of predictions: the fitted mean and its
    confidence band. *)
Record Prediction := mkPrediction {
  mean : Q;
  mean_ci_lower : Q;
  mean_ci_upper : Q
}.

(** *** The chart of all fits *)

(** [s[r]] for an integer label [r] of the index [idx]: the cell of the
    row with that label.  Python's [KeyError] carries the integer; here
    it carries its decimal form. *)
Definition series_at (idx : list Z) (s : series) (r : Z) : result cell :=
  match Frame.position r idx with
  | Some i =>
      match s !! i with
      | Some c => Ok c
      | None => Raise (KeyError (pretty r))
      end
  | None => Raise (KeyError (pretty r))
  end.

(** [v[c][r]] *)
Definition getitem_at (v c : string) (r : Z) : M cell :=
  o ← name v; df ← deref o;
  s ← lift (Frame.getitem df c);
  lift (series_at (index df) s r).

(** [np.poly1d(c)]: the coefficients, highest degree first, without
    leading zeros; the zero polynomial keeps one coefficient. *)
Fixpoint trim_zeros (c : list cell) : list cell :=
  match c with
  | Some v :: c' => if Qeq_bool v 0 then trim_zeros c' else c
  | _ => c
  end.

Definition poly1d (c : list cell) : list cell :=
  match trim_zeros c with
  | [] => [Some 0]
  | p => p
  end.

(** [p(x)] for a polynomial [p]: numpy's [polyval], which starts from
    zero and does [y = y * x + pv] for each coefficient. *)
Definition polyval (p : list cell) (x : cell) : cell :=
  fold_left (fun y pv => Cell.add (Cell.mul y x) pv) p (Some 0).

(** [np.arange(n)] *)
Definition arange (n : Z) : list Z := range 0 n.

(** A loop that hands one value per pass to the plotting library. *)
Fixpoint for_collect {A B} (l : list A) (body : A -> M B) : M (list B) :=
  match l with
  | [] => mret []
  | a :: l' => b ← body a; bs ← for_collect l' body; mret (b :: bs)
  end.

(** One pass of [for row in range(0, len(stan_results)):], the value
    being the arguments [x, y] of [plt.plot]. *)
Definition plot_line (row : Z) : M (list Z * series) :=
  b ← getitem_at "stan_results" "beta" row;
  a ← getitem_at "stan_results" "alpha" row;
  let fit_line := poly1d [b; a] in
  let x := arange 6 in
  let y := map (fun v => polyval fit_line (Some (inject_Z v))) x in
  mret (x, y).

(** The loop that draws one line per draw. *)
Definition fit_lines : M (list (list Z * series)) :=
  r ← name "stan_results"; df ← deref r;
  for_collect (range 0 (Z.of_nat (length (index df)))) plot_line.

(** *** The second way of the longer script *)

(** A series labelled by strings, as [DataFrame.quantile] and
    [.loc[label]] return. *)
Definition lseries := list (string * cell).

(** A frame whose rows are labelled by strings. *)
Record LabelFrame := mkLabelFrame {
  labels : list string;
  label_columns : list (string * series)
}.

(** [pd.DataFrame()] *)
Definition empty_frame : LabelFrame := mkLabelFrame [] [].

(** [df.quantile(q=...)]: the quantile of every column, labelled by the
    column. *)
Definition frame_quantile (df : DataFrame) (q : Q) : result lseries :=
  if Quantile.valid_level q
  then Ok (map (fun ks => (fst ks, quantile_value (snd ks) q)) (columns df))
  else Raise ValueError.

Fixpoint lseries_get (l : string) (s : lseries) : option cell :=
  match s with
  | [] => None
  | (k, c) :: s' => if String.eqb k l then Some c else lseries_get l s'
  end.

(** The values of a labelled series at the given labels, missing where
    the series has none. *)
Definition reindex (s : lseries) (ls : list string) : series :=
  map (fun l => default Cell.nan (lseries_get l s)) ls.

(** [f[c] = s] for a labelled series [s]: a frame without rows takes the
    labels of the series as its rows first; the series is then aligned
    to the rows of the frame. *)
Definition label_setitem (f : LabelFrame) (c : string) (s : lseries)
  : LabelFrame :=
  let f1 :=
    match labels f with
    | [] =>
        mkLabelFrame (map fst s)
          (map (fun ks => (fst ks, repeat Cell.nan (length s)))
               (label_columns f))
    | _ :: _ => f
    end in
  mkLabelFrame (labels f1)
    (Frame.replace_column c (reindex s (labels f1)) (label_columns f1)).

Fixpoint label_position (l : string) (ls : list string) : option nat :=
  match ls with
  | [] => None
  | l0 :: ls' =>
      if String.eqb l0 l then Some O else option_map S (label_position l ls')
  end.

(** [f.loc[l]]: the row labelled [l], labelled by the columns. *)
Definition loc_row (f : LabelFrame) (l : string) : result lseries :=
  match label_position l (labels f) with
  | Some i =>
      Ok (map (fun ks => (fst ks, default Cell.nan (snd ks !! i)))
              (label_columns f))
  | None => Raise (KeyError l)
  end.

(** From [stan_summary = pd.DataFrame()] to
    [stan_pred_df["0.95"] = stan_summary.loc["0.95"]], on the frame of
    [stan_results]; the value is [stan_pred_df]. *)
Definition second_way_on (stan_results : DataFrame) : result LabelFrame :=
  let stan_summary := empty_frame in
  q95 ← frame_quantile stan_results 0.95;
  q50 ← frame_quantile stan_results 0.5;
  q05 ← frame_quantile stan_results 0.05;
  let stan_summary := label_setitem stan_summary "0.95" q95 in
  let stan_summary := label_setitem stan_summary "0.50" q50 in
  let stan_summary := label_setitem stan_summary "0.05" q05 in
  let stan_pred_df := empty_frame in
  row ← loc_row stan_summary "0.95";
  Ok (label_setitem stan_pred_df "0.95" row).

Definition second_way : M LabelFrame :=
  r ← name "stan_results"; df ← deref r; lift (second_way_on df).

(** ** Reading the charts *)

(** A cell that holds a number, at most zero. *)
Definition cell_nonpositive (c : cell) : Prop :=
  exists v, c = Some v /\ v <= 0.

(** A cell that holds a number, at least zero. *)
Definition cell_nonnegative (c : cell) : Prop :=
  exists v, c = Some v /\ 0 <= v.

(** A cell that holds the number [v]. *)
Definition cell_is (c : cell) (v : Q) : Prop :=
  exists u, c = Some u /\ u == v.

(** The frame of predictions statsmodels hands over, reduced to the
    three columns the script reads. *)
Definition frame_of_predictions (ps : list Prediction) : DataFrame :=
  mkDataFrame (range 0 (Z.of_nat (length ps)))
    [("mean", map (fun p => Some (mean p)) ps);
     ("mean_ci_lower", map (fun p => Some (mean_ci_lower p)) ps);
     ("mean_ci_upper", map (fun p => Some (mean_ci_upper p)) ps)].

(** The first of the two columns the loop reads that a frame lacks. *)
Definition first_missing (df : DataFrame) : option string :=
  match Frame.lookup_column "alpha" (columns df),
        Frame.lookup_column "beta" (columns df) with
  | None, _ => Some "alpha"
  | Some _, None => Some "beta"
  | Some _, Some _ => None
  end.

(** ** Counting, to compare samples that differ by their order *)

(** How many values of the sample are below [v], and how many are at
    most [v]. *)
Fixpoint below (v : Q) (l : list Q) : nat :=
  match l with
  | [] => 0
  | u :: l' => (if Qle_bool v u then 0 else 1) + below v l'
  end.

Fixpoint upto (v : Q) (l : list Q) : nat :=
  match l with
  | [] => 0
  | u :: l' => (if Qle_bool u v then 1 else 0) + upto v l'
  end.

(** Two cells that are both missing or hold equal numbers. *)
Definition cell_equiv (a b : cell) : Prop :=
  match a, b with
  | Some u, Some v => u == v
  | None, None => True
  | _, _ => False
  end.

(** Two rows with equal cells. *)
Definition row_equiv (r r' : Row) : Prop :=
  cell_equiv (lower r) (lower r') /\
  cell_equiv (median r) (median r') /\
  cell_equiv (upper r) (upper r').

(** A frame every column of which has one cell per row label. *)
Definition rectangular (df : DataFrame) : Prop :=
  Forall (fun ks => length (snd ks) = length (index df)) (columns df).

(** The dataset of the scripts,
    [pd.DataFrame({"x": [0, ..., 5], "y": [0.2, ..., 9.7]})]. *)
Definition dataset : DataFrame :=
  mkDataFrame (range 0 6)
    [("x", map (fun v => Some (inject_Z v)) (range 0 6));
     ("y", [Some 0.2; Some 1.4; Some 2.5; Some 6.1; Some 8.9; Some 9.7])].

(** Six predictions with a band of one unit around the line [2 x]. *)
Definition bands6 : list Prediction :=
  map (fun v => mkPrediction (2 * inject_Z v) (2 * inject_Z v - 1)
                             (2 * inject_Z v + 1))
      (range 0 6).

(** A state with the dataset and a frame of predictions. *)
Definition ols_state (ps : list Prediction) : State :=
  mkState {["df" := 1%positive; "pred_df_ols" := 2%positive]}
          {[1%positive := dataset; 2%positive := frame_of_predictions ps]}.

(** * Facts *)

(** ** Order statistics and the interpolation *)

Module QuantileFacts.
Import Quantile.

Lemma insert_perm v l : Permutation (insert v l) (v :: l).
Proof.
  induction l as [|u l IH]; simpl; [reflexivity|].
  destruct (Qle_bool v u); [reflexivity|].
  rewrite IH. apply perm_swap.
Qed.

Lemma sort_perm l : Permutation (sort l) l.
Proof.
  induction l as [|v l IH]; simpl; [constructor|].
  rewrite insert_perm. now constructor.
Qed.

Lemma sort_length l : length (sort l) = length l.
Proof. apply Permutation_length, sort_perm. Qed.

Lemma insert_sorted v l :
  StronglySorted Qle l -> StronglySorted Qle (insert v l).
Proof.
  induction 1 as [|u l Hl IH Hu]; simpl.
  - repeat constructor.
  - destruct (Qle_bool v u) eqn:E.
    + apply Qle_bool_iff in E.
      constructor; [now constructor|].
      constructor; [exact E|].
      rewrite List.Forall_forall in Hu |- *.
      intros w Hw. specialize (Hu w Hw). lra.
    + assert (u <= v).
      { destruct (Qlt_le_dec u v) as [H|H]; [lra|].
        apply Qle_bool_iff in H. congruence. }
      constructor; [exact IH|].
      rewrite List.Forall_forall in Hu |- *.
      intros w Hw.
      apply (Permutation_in _ (insert_perm v l)) in Hw.
      destruct Hw as [<-|Hw]; [assumption|now apply Hu].
Qed.

Lemma sort_sorted l : StronglySorted Qle (sort l).
Proof.
  induction l; simpl; [constructor|now apply insert_sorted].
Qed.

Lemma sorted_nth_le (s : list Q) :
  StronglySorted Qle s ->
  forall i j : nat, (i <= j < length s)%nat -> nth i s 0 <= nth j s 0.
Proof.
  induction 1 as [|u s Hs IH Hu]; intros i j Hij; simpl in *; [lia|].
  destruct i as [|i], j as [|j]; try lia.
  - lra.
  - rewrite List.Forall_forall in Hu. apply Hu, nth_In. lia.
  - apply IH. lia.
Qed.

Lemma order_stat_mono l (i j : Z) :
  (0 <= i <= j)%Z -> (j < Z.of_nat (length l))%Z ->
  order_stat l i <= order_stat l j.
Proof.
  intros Hij Hj. unfold order_stat.
  apply sorted_nth_le; [apply sort_sorted|].
  rewrite sort_length. lia.
Qed.

Lemma floor_range (t : Q) (m : Z) :
  0 <= t -> t <= inject_Z m -> (0 <= Qfloor t <= m)%Z.
Proof.
  intros H0 Hm. split.
  - change 0%Z with (Qfloor 0). now apply Qfloor_resp_le.
  - rewrite <- (Qfloor_Z m). now apply Qfloor_resp_le.
Qed.

Lemma gamma_range (t : Q) :
  0 <= t - inject_Z (Qfloor t) /\ t - inject_Z (Qfloor t) < 1.
Proof.
  pose proof (Qfloor_le t). pose proof (Qlt_floor t) as H1.
  rewrite inject_Z_plus in H1. change (inject_Z 1) with 1 in H1.
  split; lra.
Qed.

Lemma lerp_between (a b g : Q) :
  a <= b -> 0 <= g -> g <= 1 ->
  a <= a + (b - a) * g /\ a + (b - a) * g <= b.
Proof. intros. split; nra. Qed.

Lemma at_index_between l (t : Q) :
  0 <= t -> t <= inject_Z (Z.of_nat (length l) - 1) ->
  order_stat l (Qfloor t) <= at_index l t /\
  at_index l t
    <= order_stat l (Z.min (Qfloor t + 1) (Z.of_nat (length l) - 1)).
Proof.
  intros H0 Hn. unfold at_index.
  destruct (floor_range t _ H0 Hn) as [Hk0 Hkn].
  destruct (gamma_range t) as [Hg0 Hg1].
  apply lerp_between; [|lra|lra].
  apply order_stat_mono; lia.
Qed.

Lemma at_index_mono l (t1 t2 : Q) :
  0 <= t1 -> t1 <= t2 -> t2 <= inject_Z (Z.of_nat (length l) - 1) ->
  at_index l t1 <= at_index l t2.
Proof.
  intros H0 H12 Hn.
  assert (Hk : (Qfloor t1 <= Qfloor t2)%Z) by now apply Qfloor_resp_le.
  destruct (floor_range t1 (Z.of_nat (length l) - 1)) as [Ha0 Han];
    [lra|lra|].
  destruct (floor_range t2 (Z.of_nat (length l) - 1)) as [Hb0 Hbn];
    [lra|lra|].
  destruct (Z.eq_dec (Qfloor t1) (Qfloor t2)) as [E|N].
  - unfold at_index. rewrite E.
    set (a := order_stat l (Qfloor t2)).
    set (b := order_stat l _).
    assert (a <= b) by (apply order_stat_mono; lia).
    nra.
  - destruct (at_index_between l t1) as [_ Hup]; [lra|lra|].
    destruct (at_index_between l t2) as [Hlo _]; [lra|lra|].
    assert (order_stat l (Z.min (Qfloor t1 + 1) (Z.of_nat (length l) - 1))
            <= order_stat l (Qfloor t2)) by (apply order_stat_mono; lia).
    lra.
Qed.

(** The estimator is monotone in the level. *)
Lemma linear_mono l (p q : Q) :
  l <> [] -> 0 <= p -> p <= q -> q <= 1 -> linear l p <= linear l q.
Proof.
  intros Hl H0 Hpq H1. unfold linear.
  assert (Hn : (0 <= Z.of_nat (length l) - 1)%Z).
  { destruct l; [congruence|simpl length; lia]. }
  rewrite Zle_Qle in Hn. change (inject_Z 0) with 0 in Hn.
  apply at_index_mono; nra.
Qed.

Lemma at_index_comp l (t1 t2 : Q) : t1 == t2 -> at_index l t1 == at_index l t2.
Proof.
  intros E. unfold at_index. rewrite (Qfloor_comp _ _ E). now rewrite E.
Qed.

Lemma linear_comp l (p q : Q) : p == q -> linear l p == linear l q.
Proof. intros E. unfold linear. apply at_index_comp. now rewrite E. Qed.

Lemma linear_singleton (v q : Q) : linear [v] q == v.
Proof.
  unfold linear. simpl length. change (Z.of_nat 1 - 1)%Z with 0%Z.
  rewrite (at_index_comp _ _ 0) by (change (inject_Z 0) with 0; ring).
  unfold at_index, order_stat. change (Qfloor 0) with 0%Z.
  simpl. ring.
Qed.

Lemma ceiling_of_fraction (t : Q) :
  ~ t == inject_Z (Qfloor t) -> Qceiling t = (Qfloor t + 1)%Z.
Proof.
  intros Hne.
  pose proof (Qfloor_le t) as Hf. pose proof (Qlt_floor t) as Hf1.
  pose proof (Qle_ceiling t) as Hc. pose proof (Qceiling_lt t) as Hc1.
  rewrite inject_Z_plus in Hf1. change (inject_Z 1) with 1 in Hf1.
  unfold Z.sub in Hc1. rewrite inject_Z_plus, inject_Z_opp in Hc1.
  change (inject_Z 1) with 1 in Hc1.
  assert (inject_Z (Qfloor t) < inject_Z (Qceiling t)) as H1.
  { destruct (Qlt_le_dec (inject_Z (Qfloor t)) t) as [Hlt|Hge].
    - lra.
    - exfalso. apply Hne. lra. }
  assert (inject_Z (Qceiling t) < inject_Z (Qfloor t) + 2) as H2 by lra.
  rewrite <- Zlt_Qlt in H1.
  change 2 with (inject_Z 2) in H2. rewrite <- inject_Z_plus in H2.
  rewrite <- Zlt_Qlt in H2. lia.
Qed.

(** The library's way of computing the estimator agrees with the words
    of the spec. *)
Lemma linear_spec l (p : Q) :
  l <> [] -> 0 <= p -> p <= 1 -> linear l p == spec_linear l p.
Proof.
  intros Hl H0 H1. unfold linear, spec_linear.
  set (n := Z.of_nat (length l)).
  assert (Hn : (0 <= n - 1)%Z).
  { subst n. destruct l; [congruence|simpl length; lia]. }
  rewrite Zle_Qle in Hn. change (inject_Z 0) with 0 in Hn.
  set (t := p * inject_Z (n - 1)).
  assert (Ht0 : 0 <= t) by (subst t; nra).
  assert (Htn : t <= inject_Z (n - 1)) by (subst t; nra).
  destruct (Qeq_bool t (inject_Z (Qfloor t))) eqn:E.
  - apply Qeq_bool_iff in E. unfold at_index. fold n.
    assert (G : t - inject_Z (Qfloor t) == 0) by lra.
    rewrite G. ring.
  - apply Qeq_bool_neq in E.
    rewrite (ceiling_of_fraction t E).
    unfold at_index. fold n.
    assert (Z.min (Qfloor t + 1) (n - 1) = (Qfloor t + 1)%Z) as ->.
    { apply Z.min_l.
      pose proof (Qfloor_le t) as Hf.
      assert (inject_Z (Qfloor t) < inject_Z (n - 1)) as Hlt.
      { destruct (Qlt_le_dec (inject_Z (Qfloor t)) t); [lra|].
        exfalso. apply E. lra. }
      rewrite <- Zlt_Qlt in Hlt. lia. }
    ring.
Qed.

End QuantileFacts.

Import QuantileFacts.

(** ** Frames, and the state monad *)

Module FrameFacts.
Import Frame.

Lemma lookup_replace_eq c s cols :
  lookup_column c (replace_column c s cols) = Some s.
Proof.
  induction cols as [|[k s0] cols IH]; simpl.
  - now rewrite String.eqb_refl.
  - destruct (String.eqb k c) eqn:E; simpl; rewrite E; [reflexivity|exact IH].
Qed.

Lemma lookup_replace_ne c c' s cols :
  c <> c' -> lookup_column c' (replace_column c s cols) = lookup_column c' cols.
Proof.
  intros N. induction cols as [|[k s0] cols IH]; simpl.
  - apply String.eqb_neq in N. now rewrite N.
  - destruct (String.eqb k c) eqn:E; simpl.
    + apply String.eqb_eq in E. subst k.
      apply String.eqb_neq in N. now rewrite N.
    + now rewrite IH.
Qed.

End FrameFacts.

Lemma bind_ok {A B} (m : M A) (k : A -> M B) st a st' :
  m st = Ok (a, st') -> (m ≫= k) st = k a st'.
Proof. unfold mbind, M_bind. now intros ->. Qed.

Lemma bind_raise {A B} (m : M A) (k : A -> M B) st e :
  m st = Raise e -> (m ≫= k) st = Raise e.
Proof. unfold mbind, M_bind. now intros ->. Qed.

Section Two.
Context (st : State) (rp rs : ref) (Hb : bound st rp rs).
Context (pdf sdf : DataFrame).

Lemma two_pred : heap (two st rp rs pdf sdf) !! rp = Some pdf.
Proof.
  destruct Hb as (_ & _ & N). unfold two; simpl.
  rewrite lookup_insert_ne by congruence. apply lookup_insert_eq.
Qed.

Lemma two_summary : heap (two st rp rs pdf sdf) !! rs = Some sdf.
Proof. unfold two; simpl. apply lookup_insert_eq. Qed.

Lemma two_set_pred pdf' :
  mkState (vars st) (<[rp := pdf']> (heap (two st rp rs pdf sdf)))
  = two st rp rs pdf' sdf.
Proof.
  destruct Hb as (_ & _ & N). unfold two; simpl. f_equal.
  rewrite insert_insert_ne by congruence. now rewrite insert_insert_eq.
Qed.

Lemma two_set_summary sdf' :
  mkState (vars st) (<[rs := sdf']> (heap (two st rp rs pdf sdf)))
  = two st rp rs pdf sdf'.
Proof. unfold two; simpl. f_equal. now rewrite insert_insert_eq. Qed.

Lemma getitem_pred c s :
  Frame.lookup_column c (columns pdf) = Some s ->
  getitem "pred_df_stan" c (two st rp rs pdf sdf)
  = Ok (s, two st rp rs pdf sdf).
Proof.
  intros Hc. destruct Hb as (Hp & _ & _).
  unfold getitem, name, deref, lift, mbind, M_bind.
  change (vars (two st rp rs pdf sdf)) with (vars st).
  rewrite Hp, two_pred. unfold Frame.getitem. now rewrite Hc.
Qed.

Lemma getitem_pred_missing c :
  Frame.lookup_column c (columns pdf) = None ->
  getitem "pred_df_stan" c (two st rp rs pdf sdf) = Raise (KeyError c).
Proof.
  intros Hc. destruct Hb as (Hp & _ & _).
  unfold getitem, name, deref, lift, mbind, M_bind.
  change (vars (two st rp rs pdf sdf)) with (vars st).
  rewrite Hp, two_pred. unfold Frame.getitem. now rewrite Hc.
Qed.

Lemma setitem_pred c s :
  setitem "pred_df_stan" c s (two st rp rs pdf sdf)
  = Ok (tt, two st rp rs (Frame.setitem pdf c s) sdf).
Proof.
  destruct Hb as (Hp & _ & _).
  unfold setitem, name, deref, mutate, mbind, M_bind.
  change (vars (two st rp rs pdf sdf)) with (vars st).
  rewrite Hp, two_pred. now rewrite two_set_pred.
Qed.

Lemma setitem_scalar_pred c v :
  setitem_scalar "pred_df_stan" c v (two st rp rs pdf sdf)
  = Ok (tt, two st rp rs (Frame.setitem_scalar pdf c v) sdf).
Proof.
  destruct Hb as (Hp & _ & _).
  unfold setitem_scalar, name, deref, mutate, mbind, M_bind.
  change (vars (two st rp rs pdf sdf)) with (vars st).
  rewrite Hp, two_pred. now rewrite two_set_pred.
Qed.

Lemma getitem_summary c s :
  Frame.lookup_column c (columns sdf) = Some s ->
  getitem "summary_stan" c (two st rp rs pdf sdf)
  = Ok (s, two st rp rs pdf sdf).
Proof.
  intros Hc. destruct Hb as (_ & Hs & _).
  unfold getitem, name, deref, lift, mbind, M_bind.
  change (vars (two st rp rs pdf sdf)) with (vars st).
  rewrite Hs, two_summary. unfold Frame.getitem. now rewrite Hc.
Qed.

Lemma setitem_summary c s :
  setitem "summary_stan" c s (two st rp rs pdf sdf)
  = Ok (tt, two st rp rs pdf (Frame.setitem sdf c s)).
Proof.
  destruct Hb as (_ & Hs & _).
  unfold setitem, name, deref, mutate, mbind, M_bind.
  change (vars (two st rp rs pdf sdf)) with (vars st).
  rewrite Hs, two_summary. now rewrite two_set_summary.
Qed.

Lemma loc_setitem_summary r c v :
  loc_setitem "summary_stan" r c v (two st rp rs pdf sdf)
  = Ok (tt, two st rp rs pdf (Frame.loc_setitem sdf r c v)).
Proof.
  destruct Hb as (_ & Hs & _).
  unfold loc_setitem, name, deref, mutate, mbind, M_bind.
  change (vars (two st rp rs pdf sdf)) with (vars st).
  rewrite Hs, two_summary. now rewrite two_set_summary.
Qed.

End Two.

Lemma y_not_alpha x : y_ x <> "alpha".
Proof. unfold y_. cbn. discriminate. Qed.
Lemma y_not_beta x : y_ x <> "beta".
Proof. unfold y_. cbn. discriminate. Qed.

Lemma quantile_level s q :
  Quantile.valid_level q = true -> quantile s q = Ok (quantile_value s q).
Proof. unfold quantile. now intros ->. Qed.

Lemma loop_body_run st rp rs pdf sdf a b x :
  bound st rp rs ->
  Frame.lookup_column "alpha" (columns pdf) = Some a ->
  Frame.lookup_column "beta" (columns pdf) = Some b ->
  loop_body x (two st rp rs pdf sdf)
  = Ok (tt, two st rp rs (pred_step a b pdf x)
              (summary_step
                 (fun x q =>
                    quantile_value (predictions a b (length (index pdf)) x) q)
                 sdf x)).
Proof.
  intros Hb Ha Hbeta. unfold loop_body.
  erewrite bind_ok by (now apply setitem_scalar_pred).
  erewrite bind_ok.
  2:{ apply getitem_pred; [exact Hb|].
      unfold Frame.setitem_scalar, Frame.setitem; simpl.
      rewrite FrameFacts.lookup_replace_ne by discriminate. exact Ha. }
  erewrite bind_ok.
  2:{ apply getitem_pred; [exact Hb|].
      unfold Frame.setitem_scalar, Frame.setitem; simpl.
      rewrite FrameFacts.lookup_replace_ne by discriminate. exact Hbeta. }
  erewrite bind_ok.
  2:{ apply getitem_pred; [exact Hb|].
      unfold Frame.setitem_scalar, Frame.setitem; simpl.
      apply FrameFacts.lookup_replace_eq. }
  erewrite bind_ok by (now apply setitem_pred).
  fold (predictions a b (length (index pdf)) x).
  fold (pred_step a b pdf x).
  assert (Hy : Frame.lookup_column (y_ x) (columns (pred_step a b pdf x))
               = Some (predictions a b (length (index pdf)) x)).
  { unfold pred_step. cbn [columns Frame.setitem].
    apply FrameFacts.lookup_replace_eq. }
  erewrite bind_ok by (apply getitem_pred; [exact Hb|exact Hy]).
  rewrite quantile_level by reflexivity.
  erewrite bind_ok by reflexivity.
  erewrite bind_ok by (now apply loc_setitem_summary).
  erewrite bind_ok by (apply getitem_pred; [exact Hb|exact Hy]).
  rewrite quantile_level by reflexivity.
  erewrite bind_ok by reflexivity.
  erewrite bind_ok by (now apply loc_setitem_summary).
  erewrite bind_ok by (apply getitem_pred; [exact Hb|exact Hy]).
  rewrite quantile_level by reflexivity.
  erewrite bind_ok by reflexivity.
  rewrite loc_setitem_summary by exact Hb.
  reflexivity.
Qed.

(** ** Running the block *)

Lemma pred_step_alpha a b pdf x s :
  Frame.lookup_column "alpha" (columns pdf) = Some s ->
  Frame.lookup_column "alpha" (columns (pred_step a b pdf x)) = Some s.
Proof.
  intros H. unfold pred_step, Frame.setitem_scalar, Frame.setitem; simpl.
  rewrite FrameFacts.lookup_replace_ne by apply y_not_alpha.
  now rewrite FrameFacts.lookup_replace_ne by discriminate.
Qed.

Lemma pred_step_beta a b pdf x s :
  Frame.lookup_column "beta" (columns pdf) = Some s ->
  Frame.lookup_column "beta" (columns (pred_step a b pdf x)) = Some s.
Proof.
  intros H. unfold pred_step, Frame.setitem_scalar, Frame.setitem; simpl.
  rewrite FrameFacts.lookup_replace_ne by apply y_not_beta.
  now rewrite FrameFacts.lookup_replace_ne by discriminate.
Qed.

Lemma for_each_run st rp rs a b (xs : list Z) :
  bound st rp rs ->
  forall pdf sdf,
    Frame.lookup_column "alpha" (columns pdf) = Some a ->
    Frame.lookup_column "beta" (columns pdf) = Some b ->
    for_each xs loop_body (two st rp rs pdf sdf)
    = Ok (tt, two st rp rs
                (fold_left (pred_step a b) xs pdf)
                (fold_left
                   (summary_step (quantile_cell a b (length (index pdf))))
                   xs sdf)).
Proof.
  intros Hb. induction xs as [|x xs IH]; intros pdf sdf Ha Hbeta.
  - reflexivity.
  - cbn [for_each fold_left].
    erewrite bind_ok; [|apply loop_body_run; eassumption].
    rewrite IH
      by first [now apply pred_step_alpha | now apply pred_step_beta].
    reflexivity.
Qed.

Lemma summary_fold cellf :
  fold_left (summary_step cellf) (range 0 6)
    (Frame.create ["y_025"; "y_50"; "y_975"] (range 0 6))
  = summary_closed cellf.
Proof. reflexivity. Qed.

Lemma summarize_run st r df a b :
  has_draws st r df ->
  Frame.lookup_column "alpha" (columns df) = Some a ->
  Frame.lookup_column "beta" (columns df) = Some b ->
  let rp := fresh (dom (heap st)) in
  let rs := fresh (dom (<[rp := df]> (heap st))) in
  bound (rebound st rp rs) rp rs /\
  (rp ∉ dom (heap st)) /\ (rs ∉ dom (heap st)) /\
  summarize st
  = Ok (tt, two (rebound st rp rs) rp rs
              (fold_left (pred_step a b) (range 0 6) df)
              (summary_closed (quantile_cell a b (length (index df))))).
Proof.
  intros [Hv Hh] Ha Hbeta rp rs.
  assert (Hrp : rp ∉ dom (heap st)) by apply is_fresh.
  assert (Hrs : rs ∉ dom (<[rp := df]> (heap st))) by apply is_fresh.
  rewrite dom_insert_L in Hrs.
  assert (Hb : bound (rebound st rp rs) rp rs).
  { repeat split; unfold rebound; simpl.
    - rewrite lookup_insert_ne by discriminate. apply lookup_insert_eq.
    - apply lookup_insert_eq.
    - set_solver. }
  split; [exact Hb|]. split; [exact Hrp|]. split; [set_solver|].
  unfold summarize, copy, name, deref, new, assign, mbind, M_bind.
  rewrite Hv, Hh. cbn [vars heap].
  fold rp. fold rs.
  change (mkState _ _) with
    (two (rebound st rp rs) rp rs df
       (Frame.create ["y_025"; "y_50"; "y_975"] (range 0 6))).
  rewrite (for_each_run _ _ _ a b) by assumption.
  now rewrite summary_fold.
Qed.

Lemma frame_of_two_summary st rp rs pdf sdf :
  bound st rp rs -> frame_of (two st rp rs pdf sdf) "summary_stan" = Some sdf.
Proof.
  intros (_ & Hs & _). unfold frame_of. cbn [vars two].
  rewrite Hs. simpl. apply lookup_insert_eq.
Qed.

Lemma two_frame st rp rs pdf sdf (r : ref) :
  rp ∉ dom (heap st) -> rs ∉ dom (heap st) -> is_Some (heap st !! r) ->
  heap (two st rp rs pdf sdf) !! r = heap st !! r.
Proof.
  intros Hp Hs Hr. apply elem_of_dom in Hr. unfold two; simpl.
  rewrite !lookup_insert_ne; [reflexivity| |]; intros ->; contradiction.
Qed.

(** A run that raises: the first pass of the loop fails on the column
    that is missing. *)
Lemma summarize_raises st r df :
  has_draws st r df ->
  (Frame.lookup_column "alpha" (columns df) = None ->
   summarize st = Raise (KeyError "alpha")) /\
  (forall a, Frame.lookup_column "alpha" (columns df) = Some a ->
             Frame.lookup_column "beta" (columns df) = None ->
             summarize st = Raise (KeyError "beta")).
Proof.
  intros [Hv Hh].
  set (rp := fresh (dom (heap st))).
  set (rs := fresh (dom (<[rp := df]> (heap st)))).
  assert (Hrs : rs ∉ dom (<[rp := df]> (heap st))) by apply is_fresh.
  rewrite dom_insert_L in Hrs.
  assert (Hb : bound (rebound st rp rs) rp rs).
  { repeat split; unfold rebound; simpl.
    - rewrite lookup_insert_ne by discriminate. apply lookup_insert_eq.
    - apply lookup_insert_eq.
    - set_solver. }
  assert (Hrun : forall e,
    loop_body 0
      (two (rebound st rp rs) rp rs df
         (Frame.create ["y_025"; "y_50"; "y_975"] (range 0 6))) = Raise e ->
    summarize st = Raise e).
  { intros e He.
    unfold summarize, copy, name, deref, new, assign, mbind, M_bind.
    rewrite Hv, Hh. cbn [vars heap]. fold rp. fold rs.
    change (mkState _ _) with
      (two (rebound st rp rs) rp rs df
         (Frame.create ["y_025"; "y_50"; "y_975"] (range 0 6))).
    change (range 0 6) with (0%Z :: range 1 6) at 1. cbn [for_each].
    now apply bind_raise. }
  split.
  - intros Ha. apply Hrun. unfold loop_body.
    erewrite bind_ok by (now apply setitem_scalar_pred).
    apply bind_raise, getitem_pred_missing; [exact Hb|].
    unfold Frame.setitem_scalar, Frame.setitem; simpl.
    now rewrite FrameFacts.lookup_replace_ne by discriminate.
  - intros a Ha Hbeta. apply Hrun. unfold loop_body.
    erewrite bind_ok by (now apply setitem_scalar_pred).
    erewrite bind_ok.
    2:{ apply getitem_pred; [exact Hb|].
        unfold Frame.setitem_scalar, Frame.setitem; simpl.
        rewrite FrameFacts.lookup_replace_ne by discriminate. exact Ha. }
    apply bind_raise, getitem_pred_missing; [exact Hb|].
    unfold Frame.setitem_scalar, Frame.setitem; simpl.
    now rewrite FrameFacts.lookup_replace_ne by discriminate.
Qed.

(** The table the block leaves depends on the frame of draws only. *)
Lemma summary_of_outcome st r df :
  has_draws st r df -> summary_of st = outcome df.
Proof.
  intros Hd. unfold summary_of, outcome.
  destruct (Frame.lookup_column "alpha" (columns df)) as [a|] eqn:Ha.
  - destruct (Frame.lookup_column "beta" (columns df)) as [b|] eqn:Hbeta.
    + destruct (summarize_run st r df a b Hd Ha Hbeta) as (Hb & _ & _ & ->).
      now rewrite frame_of_two_summary.
    + destruct (summarize_raises st r df Hd) as [_ H].
      now rewrite (H a Ha Hbeta).
  - destruct (summarize_raises st r df Hd) as [H _]. now rewrite H.
Qed.

Lemma dropna_present (l : list Q) : Series.dropna (map Some l) = l.
Proof. induction l; simpl; congruence. Qed.

Lemma range_length (n : nat) : length (range 0 (Z.of_nat n)) = n.
Proof.
  unfold range. rewrite length_map, length_seq. lia.
Qed.

Lemma predictions_draws (ds : list Draw) (x : Z) :
  predictions (map (fun d => Some (alpha d)) ds)
              (map (fun d => Some (beta d)) ds) (length ds) x
  = map Some (predictive_samples ds x).
Proof.
  unfold predictions, predictive_samples, Series.add, Series.mul.
  induction ds as [|d ds IH]; simpl; [reflexivity|].
  now rewrite IH.
Qed.

Lemma summary_closed_ext (f g : Z -> Q -> cell) :
  (forall x q, f x q = g x q) -> summary_closed f = summary_closed g.
Proof.
  intros E. unfold summary_closed.
  repeat (f_equal; try (apply map_ext; intros; apply E)).
Qed.

Lemma initial_has_draws ds : has_draws (initial ds) 1%positive (frame_of_draws ds).
Proof. split; reflexivity. Qed.

(** The summary table of a draw set, in closed form. *)
Lemma summary_of_draws st r ds :
  has_draws st r (frame_of_draws ds) ->
  summary_of st = Ok (summary_closed (draw_cell ds)).
Proof.
  intros Hd. rewrite (summary_of_outcome st r _ Hd).
  unfold outcome. cbn [frame_of_draws columns Frame.lookup_column String.eqb
                        Ascii.eqb Bool.eqb index].
  f_equal. apply summary_closed_ext. intros x q.
  unfold quantile_cell, draw_cell.
  now rewrite range_length, predictions_draws.
Qed.

Lemma summary_table_closed ds :
  summary_table ds = Ok (summary_closed (draw_cell ds)).
Proof. apply (summary_of_draws _ 1%positive), initial_has_draws. Qed.

Lemma rows_closed cellf :
  rows (summary_closed cellf)
  = map (fun x => (x, mkRow (cellf x 0.025) (cellf x 0.5) (cellf x 0.975)))
        (range 0 6).
Proof. reflexivity. Qed.

(** ** Running the block with its literals as parameters *)

(** [summarize] is [summarize_at] at the literals of the scripts. *)
Lemma loop_body_at_script x : loop_body_at 0.025 0.5 0.975 x = loop_body x.
Proof. reflexivity. Qed.

Lemma summarize_at_script : summarize_at (range 0 6) 0.025 0.5 0.975 = summarize.
Proof. reflexivity. Qed.

Lemma summary_at_script ds :
  summary_at ds (range 0 6) 0.025 0.5 0.975 = summary_table ds.
Proof. reflexivity. Qed.

Lemma loop_body_at_run st rp rs pdf sdf a b lo mid hi x :
  bound st rp rs ->
  Quantile.valid_level lo = true ->
  Quantile.valid_level mid = true ->
  Quantile.valid_level hi = true ->
  Frame.lookup_column "alpha" (columns pdf) = Some a ->
  Frame.lookup_column "beta" (columns pdf) = Some b ->
  loop_body_at lo mid hi x (two st rp rs pdf sdf)
  = Ok (tt, two st rp rs (pred_step a b pdf x)
              (summary_step_at (quantile_cell a b (length (index pdf)))
                 lo mid hi sdf x)).
Proof.
  intros Hb Hlo Hmid Hhi Ha Hbeta. unfold loop_body_at.
  erewrite bind_ok by (now apply setitem_scalar_pred).
  erewrite bind_ok.
  2:{ apply getitem_pred; [exact Hb|].
      unfold Frame.setitem_scalar, Frame.setitem; simpl.
      rewrite FrameFacts.lookup_replace_ne by discriminate. exact Ha. }
  erewrite bind_ok.
  2:{ apply getitem_pred; [exact Hb|].
      unfold Frame.setitem_scalar, Frame.setitem; simpl.
      rewrite FrameFacts.lookup_replace_ne by discriminate. exact Hbeta. }
  erewrite bind_ok.
  2:{ apply getitem_pred; [exact Hb|].
      unfold Frame.setitem_scalar, Frame.setitem; simpl.
      apply FrameFacts.lookup_replace_eq. }
  erewrite bind_ok by (now apply setitem_pred).
  fold (predictions a b (length (index pdf)) x).
  fold (pred_step a b pdf x).
  assert (Hy : Frame.lookup_column (y_ x) (columns (pred_step a b pdf x))
               = Some (predictions a b (length (index pdf)) x)).
  { unfold pred_step. cbn [columns Frame.setitem].
    apply FrameFacts.lookup_replace_eq. }
  erewrite bind_ok by (apply getitem_pred; [exact Hb|exact Hy]).
  rewrite (quantile_level _ lo) by exact Hlo.
  erewrite bind_ok by reflexivity.
  erewrite bind_ok by (now apply loc_setitem_summary).
  erewrite bind_ok by (apply getitem_pred; [exact Hb|exact Hy]).
  rewrite (quantile_level _ mid) by exact Hmid.
  erewrite bind_ok by reflexivity.
  erewrite bind_ok by (now apply loc_setitem_summary).
  erewrite bind_ok by (apply getitem_pred; [exact Hb|exact Hy]).
  rewrite (quantile_level _ hi) by exact Hhi.
  erewrite bind_ok by reflexivity.
  rewrite loc_setitem_summary by exact Hb.
  reflexivity.
Qed.

Lemma for_each_at_run st rp rs a b lo mid hi (xs : list Z) :
  bound st rp rs ->
  Quantile.valid_level lo = true ->
  Quantile.valid_level mid = true ->
  Quantile.valid_level hi = true ->
  forall pdf sdf,
    Frame.lookup_column "alpha" (columns pdf) = Some a ->
    Frame.lookup_column "beta" (columns pdf) = Some b ->
    for_each xs (loop_body_at lo mid hi) (two st rp rs pdf sdf)
    = Ok (tt, two st rp rs
                (fold_left (pred_step a b) xs pdf)
                (fold_left
                   (summary_step_at (quantile_cell a b (length (index pdf)))
                      lo mid hi)
                   xs sdf)).
Proof.
  intros Hb Hlo Hmid Hhi.
  induction xs as [|x xs IH]; intros pdf sdf Ha Hbeta.
  - reflexivity.
  - cbn [for_each fold_left].
    erewrite bind_ok; [|apply loop_body_at_run; eassumption].
    rewrite IH
      by first [now apply pred_step_alpha | now apply pred_step_beta].
    reflexivity.
Qed.

Lemma summary_step_at_ext (f g : Z -> Q -> cell) lo mid hi xs :
  (forall x q, f x q = g x q) ->
  forall sdf,
    fold_left (summary_step_at f lo mid hi) xs sdf
    = fold_left (summary_step_at g lo mid hi) xs sdf.
Proof.
  intros E. induction xs as [|x xs IH]; intros sdf; [reflexivity|].
  cbn [fold_left]. rewrite IH. unfold summary_step_at. now rewrite !E.
Qed.

Lemma summarize_at_run st r df a b qs lo mid hi :
  has_draws st r df ->
  Quantile.valid_level lo = true ->
  Quantile.valid_level mid = true ->
  Quantile.valid_level hi = true ->
  Frame.lookup_column "alpha" (columns df) = Some a ->
  Frame.lookup_column "beta" (columns df) = Some b ->
  exists st',
    summarize_at qs lo mid hi st = Ok (tt, st') /\
    frame_of st' "summary_stan"
    = Some (fold_left
              (summary_step_at (quantile_cell a b (length (index df)))
                 lo mid hi)
              qs (Frame.create ["y_025"; "y_50"; "y_975"] qs)).
Proof.
  intros [Hv Hh] Hlo Hmid Hhi Ha Hbeta.
  set (rp := fresh (dom (heap st))).
  set (rs := fresh (dom (<[rp := df]> (heap st)))).
  assert (Hrs : rs ∉ dom (<[rp := df]> (heap st))) by apply is_fresh.
  rewrite dom_insert_L in Hrs.
  assert (Hb : bound (rebound st rp rs) rp rs).
  { repeat split; unfold rebound; simpl.
    - rewrite lookup_insert_ne by discriminate. apply lookup_insert_eq.
    - apply lookup_insert_eq.
    - set_solver. }
  eexists. split.
  - unfold summarize_at, copy, name, deref, new, assign, mbind, M_bind.
    rewrite Hv, Hh. cbn [vars heap]. fold rp. fold rs.
    change (mkState _ _) with
      (two (rebound st rp rs) rp rs df
         (Frame.create ["y_025"; "y_50"; "y_975"] qs)).
    apply (for_each_at_run _ _ _ a b); assumption.
  - now apply frame_of_two_summary.
Qed.

(** The table of a draw set for any query points and any three valid
    levels: the passes of the loop applied in order to the empty table. *)
Lemma summary_at_run ds qs lo mid hi :
  Quantile.valid_level lo = true ->
  Quantile.valid_level mid = true ->
  Quantile.valid_level hi = true ->
  summary_at ds qs lo mid hi
  = Ok (fold_left (summary_step_at (draw_cell ds) lo mid hi) qs
          (Frame.create ["y_025"; "y_50"; "y_975"] qs)).
Proof.
  intros Hlo Hmid Hhi. unfold summary_at.
  destruct (summarize_at_run (initial ds) 1%positive (frame_of_draws ds)
              (map (fun d => Some (alpha d)) ds)
              (map (fun d => Some (beta d)) ds) qs lo mid hi
              (initial_has_draws ds) Hlo Hmid Hhi eq_refl eq_refl)
    as (st' & -> & ->).
  f_equal. apply summary_step_at_ext. intros x q.
  unfold quantile_cell, draw_cell. cbn [frame_of_draws index].
  now rewrite range_length, predictions_draws.
Qed.

Lemma summary_fold_at cellf lo mid hi :
  fold_left (summary_step_at cellf lo mid hi) (range 0 6)
    (Frame.create ["y_025"; "y_50"; "y_975"] (range 0 6))
  = summary_closed_at cellf (range 0 6) lo mid hi.
Proof. reflexivity. Qed.

Lemma rows_closed_at cellf lo mid hi :
  rows (summary_closed_at cellf (range 0 6) lo mid hi)
  = map (fun x => (x, mkRow (cellf x lo) (cellf x mid) (cellf x hi)))
        (range 0 6).
Proof. reflexivity. Qed.

Lemma row_at_in_rows df x : In x (index df) -> In (x, row_at df x) (rows df).
Proof. intros H. unfold rows. apply in_map_iff. now exists x. Qed.

Lemma row_at_closed_at cellf lo mid hi x :
  In x (range 0 6) ->
  row_at (summary_closed_at cellf (range 0 6) lo mid hi) x
  = mkRow (cellf x lo) (cellf x mid) (cellf x hi).
Proof.
  intros Hx.
  pose proof (row_at_in_rows
                (summary_closed_at cellf (range 0 6) lo mid hi) x Hx) as E.
  rewrite rows_closed_at in E. apply in_map_iff in E.
  destruct E as (x' & E & _).
  assert (x' = x) by exact (f_equal fst E). subst x'.
  exact (eq_sym (f_equal snd E)).
Qed.

Lemma row_at_closed cellf x :
  In x (range 0 6) ->
  row_at (summary_closed cellf) x
  = mkRow (cellf x 0.025) (cellf x 0.5) (cellf x 0.975).
Proof. apply (row_at_closed_at cellf 0.025 0.5 0.975). Qed.

Lemma errorbar_run st rp rs pdf sdf lo mid hi :
  bound st rp rs ->
  Frame.lookup_column "y_025" (columns sdf) = Some lo ->
  Frame.lookup_column "y_500" (columns sdf) = Some mid ->
  Frame.lookup_column "y_975" (columns sdf) = Some hi ->
  errorbar (two st rp rs pdf sdf)
  = Ok (mkErrorbar (index sdf) mid (Series.sub lo mid, Series.sub mid hi),
        two st rp rs pdf (with_diffs sdf lo mid hi)).
Proof.
  intros Hb Hlo Hmid Hhi. unfold errorbar.
  erewrite bind_ok by (apply getitem_summary; eassumption).
  erewrite bind_ok by (apply getitem_summary; eassumption).
  erewrite bind_ok by (now apply setitem_summary).
  erewrite bind_ok.
  2:{ apply getitem_summary; [exact Hb|]. cbn [Frame.setitem columns].
      rewrite FrameFacts.lookup_replace_ne by discriminate. exact Hmid. }
  erewrite bind_ok.
  2:{ apply getitem_summary; [exact Hb|]. cbn [Frame.setitem columns].
      rewrite FrameFacts.lookup_replace_ne by discriminate. exact Hhi. }
  erewrite bind_ok by (now apply setitem_summary).
  fold (with_diffs sdf lo mid hi).
  destruct Hb as (Hp & Hs & N).
  unfold name at 1. erewrite bind_ok
    by (cbn [vars two]; rewrite Hs; reflexivity).
  unfold deref at 1. erewrite bind_ok
    by (rewrite two_summary; reflexivity).
  assert (Hb : bound st rp rs) by (repeat split; assumption).
  erewrite bind_ok.
  2:{ apply getitem_summary; [exact Hb|].
      unfold with_diffs. cbn [Frame.setitem columns].
      rewrite !FrameFacts.lookup_replace_ne by discriminate. exact Hmid. }
  erewrite bind_ok.
  2:{ apply getitem_summary; [exact Hb|].
      unfold with_diffs. cbn [Frame.setitem columns].
      rewrite FrameFacts.lookup_replace_ne by discriminate.
      apply FrameFacts.lookup_replace_eq. }
  erewrite bind_ok.
  2:{ apply getitem_summary; [exact Hb|].
      unfold with_diffs. cbn [Frame.setitem columns].
      apply FrameFacts.lookup_replace_eq. }
  reflexivity.
Qed.

Lemma with_diffs_keeps sdf lo mid hi c :
  c <> "ci_lower_diff" -> c <> "ci_upper_diff" ->
  Frame.lookup_column c (columns (with_diffs sdf lo mid hi))
  = Frame.lookup_column c (columns sdf).
Proof.
  intros N1 N2. unfold with_diffs. cbn [Frame.setitem columns].
  now rewrite !FrameFacts.lookup_replace_ne by congruence.
Qed.

(** * The claims *)

Lemma predictive_samples_sigma (f : Draw -> Q) ds x :
  predictive_samples (map (fun d => mkDraw (alpha d) (beta d) (f d)) ds) x
  = predictive_samples ds x.
Proof. unfold predictive_samples. rewrite map_map. reflexivity. Qed.

(** C1: for every draw set, the block completes and leaves one row per
    query point, in the order of [range(0, 6)]; the row of [x] holds the
    quantiles at levels 0.025, 0.5 and 0.975 of the values
    [alpha + beta * x] of the draws.  [sigma] takes no part: replacing
    it by anything leaves the table as it is. *)
Theorem summarize_rows (ds : list Draw) :
  (exists df,
      summary_table ds = Ok df /\
      rows df
      = map (fun x =>
               let y := map Some (predictive_samples ds x) in
               (x, mkRow (quantile_value y 0.025) (quantile_value y 0.5)
                         (quantile_value y 0.975)))
            (range 0 6)) /\
  (forall f : Draw -> Q,
      summary_table (map (fun d => mkDraw (alpha d) (beta d) (f d)) ds)
      = summary_table ds).
Proof.
  split.
  - exists (summary_closed (draw_cell ds)). split.
    + apply summary_table_closed.
    + apply rows_closed.
  - intros f. rewrite !summary_table_closed. f_equal.
    apply summary_closed_ext. intros x q. unfold draw_cell.
    now rewrite predictive_samples_sigma.
Qed.

Lemma valid_level_iff q : Quantile.valid_level q = true <-> 0 <= q /\ q <= 1.
Proof.
  unfold Quantile.valid_level. rewrite andb_true_iff, !Qle_bool_iff. tauto.
Qed.

Lemma quantile_present (l : list Q) (q : Q) :
  l <> [] -> 0 <= q -> q <= 1 ->
  quantile (map Some l) q = Ok (Some (Quantile.linear l q)).
Proof.
  intros Hl H0 H1. unfold quantile, quantile_value.
  rewrite (proj2 (valid_level_iff q)) by tauto.
  rewrite dropna_present. destruct l; [congruence|reflexivity].
Qed.

Lemma quantile_value_present (l : list Q) (q : Q) :
  l <> [] -> quantile_value (map Some l) q = Some (Quantile.linear l q).
Proof.
  intros Hl. unfold quantile_value.
  rewrite dropna_present. destruct l; [congruence|reflexivity].
Qed.

(** C3: for a non-empty sample and a level [p] in [0, 1], the quantile
    the block uses is the linear-interpolation estimator as the spec words
    it (index [p * (n - 1)] into the sorted sample, interpolation between
    the two neighbouring order statistics when the index is not an
    integer); the sorted sample is a permutation of the sample, so tied
    values are all kept. *)
Theorem quantile_is_linear_interpolation (l : list Q) (p : Q) :
  l <> [] -> 0 <= p -> p <= 1 ->
  (exists v, quantile (map Some l) p = Ok (Some v) /\
             v == Quantile.spec_linear l p) /\
  Permutation (Quantile.sort l) l /\
  StronglySorted Qle (Quantile.sort l).
Proof.
  intros Hl H0 H1. split; [|split].
  - exists (Quantile.linear l p). split.
    + now apply quantile_present.
    + now apply linear_spec.
  - apply sort_perm.
  - apply sort_sorted.
Qed.

(** The estimator at level 0.25 on a sample with a tie. *)
Lemma quantile_is_linear_interpolation_witness :
  (exists v, quantile (map Some [3; 1; 1]) 0.25 = Ok (Some v) /\
             v == Quantile.spec_linear [3; 1; 1] 0.25) /\
  Permutation (Quantile.sort [3; 1; 1]) [3; 1; 1] /\
  StronglySorted Qle (Quantile.sort [3; 1; 1]).
Proof.
  apply (quantile_is_linear_interpolation [3; 1; 1] 0.25).
  - discriminate.
  - vm_compute. discriminate.
  - vm_compute. discriminate.
Defined.

Lemma predictive_samples_nonempty ds x : ds <> [] -> predictive_samples ds x <> [].
Proof. destruct ds; [congruence|discriminate]. Qed.

Lemma draw_cell_present ds x q :
  ds <> [] ->
  draw_cell ds x q = Some (Quantile.linear (predictive_samples ds x) q).
Proof.
  intros Hd. unfold draw_cell.
  now apply quantile_value_present, predictive_samples_nonempty.
Qed.

(** C4, as stated, fails where float64 overflows: for the single draw
    with intercept and slope [1e308], the column [y_1] is an infinity,
    the interpolation subtracts it from itself, and the row of [x = 1]
    is three NaN, which are not in order. *)
Lemma rows_not_ordered_on_overflow :
  Float64.prediction Float64.huge 1 = infinity /\
  Float64.row [Float64.huge] 1 = (nan, nan, nan) /\
  Float64.ordered (Float64.row [Float64.huge] 1) = false.
Proof. repeat split; vm_compute; reflexivity. Qed.

(** C4, amended: for a non-empty draw set of moderate magnitude, every
    row of the summary table has three numbers with
    lower <= median <= upper.  The numbers are the exact ones: the bound
    on the draws keeps float64 from overflowing, and rounding is not
    modelled. *)
Theorem rows_ordered (ds : list Draw) :
  ds <> [] -> Forall moderate ds ->
  exists df,
    summary_table ds = Ok df /\
    map fst (rows df) = range 0 6 /\
    Forall (fun xr => row_ordered (snd xr)) (rows df).
Proof.
  intros Hd _. exists (summary_closed (draw_cell ds)).
  split; [apply summary_table_closed|]. split; [reflexivity|].
  rewrite rows_closed. apply List.Forall_forall. intros [x0 r] Hin.
  apply in_map_iff in Hin. destruct Hin as (x & E & _).
  injection E as <- <-.
  exists (Quantile.linear (predictive_samples ds x) 0.025),
         (Quantile.linear (predictive_samples ds x) 0.5),
         (Quantile.linear (predictive_samples ds x) 0.975).
  cbn [snd lower median upper].
  rewrite !draw_cell_present by assumption.
  repeat split; try reflexivity.
  - apply linear_mono; [now apply predictive_samples_nonempty|lra..].
  - apply linear_mono; [now apply predictive_samples_nonempty|lra..].
Qed.

(** The rows of the scenario's draw set are ordered. *)
Lemma rows_ordered_witness :
  exists df,
    summary_table draws3 = Ok df /\
    map fst (rows df) = range 0 6 /\
    Forall (fun xr => row_ordered (snd xr)) (rows df).
Proof.
  apply (rows_ordered draws3).
  - discriminate.
  - repeat constructor; vm_compute; discriminate.
Defined.

(** C6, as stated, fails where float64 overflows: for the single draw
    with intercept and slope [1e308] the value at [x = 1] is an
    infinity, and the row of [x = 1] is three NaN, none of them equal to
    it. *)
Lemma single_draw_row_lost_on_overflow :
  Float64.prediction Float64.huge 1 = infinity /\
  Float64.row [Float64.huge] 1 = (nan, nan, nan) /\
  Float64.all_equal (Float64.row [Float64.huge] 1)
    (Float64.prediction Float64.huge 1) = false.
Proof. repeat split; vm_compute; reflexivity. Qed.

(** C6, amended: for a draw set of exactly one draw [d] of moderate
    magnitude, the row of every query point [x] has
    lower = median = upper = [alpha d + beta d * x].  The numbers are the
    exact ones: the bound on the draw keeps float64 from overflowing, and
    rounding is not modelled. *)
Theorem single_draw_rows (d : Draw) :
  moderate d ->
  exists df,
    summary_table [d] = Ok df /\
    map fst (rows df) = range 0 6 /\
    Forall (fun xr =>
              let v := alpha d + beta d * inject_Z (fst xr) in
              row_is (snd xr) v v v)
           (rows df).
Proof.
  intros _. exists (summary_closed (draw_cell [d])).
  split; [apply summary_table_closed|]. split; [reflexivity|].
  rewrite rows_closed. apply List.Forall_forall. intros [x0 r] Hin.
  apply in_map_iff in Hin. destruct Hin as (x & E & _).
  injection E as <- <-.
  cbn [fst snd]. unfold row_is. cbn [lower median upper].
  rewrite !draw_cell_present by discriminate.
  do 3 eexists. repeat split; apply linear_singleton.
Qed.

(** The single draw with intercept 2 and slope 1. *)
Lemma single_draw_rows_witness :
  exists df,
    summary_table [mkDraw 2 1 1] = Ok df /\
    map fst (rows df) = range 0 6 /\
    Forall (fun xr =>
              let v := alpha (mkDraw 2 1 1)
                       + beta (mkDraw 2 1 1) * inject_Z (fst xr) in
              row_is (snd xr) v v v)
           (rows df).
Proof.
  apply (single_draw_rows (mkDraw 2 1 1)).
  split; vm_compute; discriminate.
Defined.

Lemma lower_tail_range c : 0 < c -> c < 1 -> 0 <= lower_tail c /\ lower_tail c <= 1.
Proof.
  intros. unfold lower_tail. split.
  - apply Qle_shift_div_l; lra.
  - apply Qle_shift_div_r; lra.
Qed.

Lemma tails c : upper_tail c == 1 - lower_tail c.
Proof. reflexivity. Qed.

Lemma lower_tail_anti c1 c2 : c1 <= c2 -> lower_tail c2 <= lower_tail c1.
Proof.
  intros. unfold lower_tail, Qdiv. apply Qmult_le_compat_r; [lra|].
  vm_compute. discriminate.
Qed.

Lemma tails_valid c :
  0 < c -> c < 1 ->
  Quantile.valid_level (lower_tail c) = true /\
  Quantile.valid_level (upper_tail c) = true.
Proof.
  intros H0 H1. destruct (lower_tail_range c H0 H1) as [Hl0 Hl1].
  pose proof (tails c) as Ht.
  split; apply valid_level_iff; lra.
Qed.

(** The table at a coverage within (0, 1), for the query points of the
    scripts. *)
Lemma summary_with_closed ds c :
  0 < c -> c < 1 ->
  summary_with ds (range 0 6) c
  = Ok (summary_closed_at (draw_cell ds) (range 0 6)
          (lower_tail c) 0.5 (upper_tail c)).
Proof.
  intros H0 H1. destruct (tails_valid c H0 H1) as [Hl Hu].
  unfold summary_with.
  rewrite summary_at_run by (try assumption; reflexivity).
  now rewrite summary_fold_at.
Qed.

(** The rows the scripts leave are those of coverage 0.95: the tails of
    0.95 are the literals 0.025 and 0.975 of the loop. *)
Lemma summary_rows_are_coverage_95 (ds : list Draw) :
  ds <> [] ->
  exists df df95,
    summary_table ds = Ok df /\
    summary_with ds (range 0 6) 0.95 = Ok df95 /\
    map fst (rows df95) = map fst (rows df) /\
    forall x, In x (range 0 6) -> row_equiv (row_at df x) (row_at df95 x).
Proof.
  intros Hd. do 2 eexists.
  split; [apply summary_table_closed|].
  split; [apply summary_with_closed; reflexivity|].
  split; [reflexivity|].
  intros x Hx.
  rewrite row_at_closed, row_at_closed_at by exact Hx.
  rewrite !draw_cell_present by assumption.
  repeat split; cbn [lower median upper cell_equiv];
    apply linear_comp; reflexivity.
Qed.

(** C7, as stated, fails where float64 overflows: for the single draw
    with intercept and slope [1e308] the rows of [x = 1] at the
    coverages 0.5 and 0.95 are both three NaN, and no bound of the one
    is at most, or at least, a bound of the other. *)
Lemma interval_lost_on_overflow :
  Float64.row_with 0.5 [Float64.huge] 1 = (nan, nan, nan) /\
  Float64.row_with 0.95 [Float64.huge] 1 = (nan, nan, nan) /\
  Float64.widens (Float64.row_with 0.5 [Float64.huge] 1)
                 (Float64.row_with 0.95 [Float64.huge] 1) = false.
Proof. repeat split; vm_compute; reflexivity. Qed.

(** C7, amended: for a non-empty draw set of moderate magnitude and
    every query point of the scripts, raising the coverage within (0, 1)
    never shrinks the two-sided interval: the lower bound does not go up
    and the upper bound does not go down.  The coverage sets the two tail
    levels of the loop, which the scripts fix at those of 0.95; the
    numbers are the exact ones. *)
Theorem interval_widens_with_coverage (ds : list Draw) (c1 c2 : Q) :
  ds <> [] -> Forall moderate ds -> 0 < c1 -> c1 <= c2 -> c2 < 1 ->
  exists df1 df2,
    summary_with ds (range 0 6) c1 = Ok df1 /\
    summary_with ds (range 0 6) c2 = Ok df2 /\
    forall x, In x (range 0 6) -> row_widens (row_at df1 x) (row_at df2 x).
Proof.
  intros Hd _ H0 H12 H1. do 2 eexists.
  split; [apply summary_with_closed; lra|].
  split; [apply summary_with_closed; lra|].
  intros x Hx.
  rewrite !row_at_closed_at by exact Hx.
  unfold row_widens. cbn [lower upper].
  rewrite !draw_cell_present by assumption.
  do 4 eexists. do 4 (split; [reflexivity|]).
  destruct (lower_tail_range c1) as [Ha0 Ha1]; [lra..|].
  destruct (lower_tail_range c2) as [Hb0 Hb1]; [lra..|].
  pose proof (lower_tail_anti c1 c2 H12) as Hanti.
  pose proof (tails c1) as Ht1. pose proof (tails c2) as Ht2.
  split; apply linear_mono;
    try (now apply predictive_samples_nonempty); lra.
Qed.

(** From coverage 0.5 to coverage 0.95 on the scenario's draw set. *)
Lemma interval_widens_with_coverage_witness :
  exists df1 df2,
    summary_with draws3 (range 0 6) 0.5 = Ok df1 /\
    summary_with draws3 (range 0 6) 0.95 = Ok df2 /\
    forall x, In x (range 0 6) -> row_widens (row_at df1 x) (row_at df2 x).
Proof.
  apply (interval_widens_with_coverage draws3 0.5 0.95).
  - discriminate.
  - repeat constructor; vm_compute; discriminate.
  - reflexivity.
  - vm_compute. discriminate.
  - reflexivity.
Defined.

(** C2: on the three draws of the scenario, with the query points 0 and
    1 and the coverage 0.5 (tail levels 0.25 and 0.75), the block leaves
    the row (1, 2, 3) at [x = 0] and the row (2, 3, 4) at [x = 1], and no
    other row. *)
Theorem scenario_rows_at_coverage_half :
  exists df,
    summary_with draws3 [0; 1]%Z 0.5 = Ok df /\
    map fst (rows df) = [0; 1]%Z /\
    row_is (row_at df 0) 1 2 3 /\ row_is (row_at df 1) 2 3 4.
Proof.
  eexists. split; [vm_compute; reflexivity|].
  split; [reflexivity|].
  split; do 3 eexists; repeat split; vm_compute; reflexivity.
Qed.

(** The same rows in binary64: every number of the scenario is computed
    without rounding. *)
Example scenario_rows_binary64 :
  map (Float64.row_with 0.5 Float64.draws3) [0; 1]%Z
  = [(1, 2, 3); (2, 3, 4)]%float.
Proof. vm_compute. reflexivity. Qed.

(** At their own literals (query points 0 .. 5, levels 0.025, 0.5 and
    0.975) the scripts leave other rows on these draws: (0.1, 2, 3.9) at
    [x = 0] and (1.1, 3, 4.9) at [x = 1]. *)
Example scenario_rows_of_the_scripts :
  exists df,
    summary_table draws3 = Ok df /\
    row_is (row_at df 0) 0.1 2 3.9 /\ row_is (row_at df 1) 1.1 3 4.9.
Proof.
  eexists. split; [vm_compute; reflexivity|].
  split; do 3 eexists; repeat split; vm_compute; reflexivity.
Qed.

(** C5, as stated, fails: on an empty draw set the block raises
    nothing. *)
Lemma empty_draws_do_not_raise : ~ (exists e, summary_table [] = Raise e).
Proof. intros [e H]. vm_compute in H. discriminate. Qed.

(** C5, amended: the block validates nothing and never raises on a draw
    set.  For every draw set, the empty one included, it returns the full
    table of six rows and four columns; for the empty draw set every
    quantile cell is missing.  Its three levels are constants that pass
    the library's level check. *)
Theorem summarize_never_raises :
  (forall ds : list Draw,
      exists df,
        summary_table ds = Ok df /\
        map fst (rows df) = range 0 6 /\
        Frame.column_names df = ["y_025"; "y_50"; "y_975"; "y_500"] /\
        Forall (fun ks => length (snd ks) = 6%nat) (columns df)) /\
  (exists df,
      summary_table [] = Ok df /\
      Forall (fun xr => row_missing (snd xr)) (rows df)) /\
  Forall (fun q => Quantile.valid_level q = true) [0.025; 0.5; 0.975].
Proof.
  split; [|split].
  - intros ds. exists (summary_closed (draw_cell ds)).
    split; [apply summary_table_closed|].
    repeat split. repeat constructor.
  - eexists. split; [apply summary_table_closed|].
    rewrite rows_closed. repeat constructor.
  - repeat constructor.
Qed.

(** C8: the table the block leaves (or the error it raises) is the same
    in any two states whose [stan_results] hold the same frame, whatever
    else the states contain and wherever the frame is stored. *)
Theorem summarize_deterministic (st1 st2 : State) (r1 r2 : ref)
  (df : DataFrame) :
  has_draws st1 r1 df -> has_draws st2 r2 df ->
  summary_of st1 = summary_of st2.
Proof.
  intros H1 H2.
  now rewrite (summary_of_outcome st1 r1 df H1),
              (summary_of_outcome st2 r2 df H2).
Qed.

(** A second run, started from the state the first one left, gives the
    table of the first. *)
Lemma summarize_deterministic_witness :
  summary_of (initial draws3) = summary_of (after_run (initial draws3)).
Proof.
  apply (summarize_deterministic _ _ 1%positive 1%positive
           (frame_of_draws draws3)).
  - split; reflexivity.
  - split; vm_compute; reflexivity.
Defined.

Lemma two_rebound_frame st rp rs pdf sdf (r : ref) :
  rp ∉ dom (heap st) -> rs ∉ dom (heap st) -> is_Some (heap st !! r) ->
  heap (two (rebound st rp rs) rp rs pdf sdf) !! r = heap st !! r.
Proof. apply (two_frame (rebound st rp rs)). Qed.

Lemma summarize_run_draws st r ds :
  has_draws st r (frame_of_draws ds) ->
  exists rp rs pdf,
    bound (rebound st rp rs) rp rs /\
    (rp ∉ dom (heap st)) /\ (rs ∉ dom (heap st)) /\
    summarize st
    = Ok (tt, two (rebound st rp rs) rp rs pdf
                (summary_closed (draw_cell ds))).
Proof.
  intros Hd.
  destruct (summarize_run st r (frame_of_draws ds) _ _ Hd eq_refl eq_refl)
    as (Hb & Hrp & Hrs & Hrun).
  cbn [frame_of_draws index] in Hrun. rewrite range_length in Hrun.
  rewrite (summary_closed_ext _ (draw_cell ds)) in Hrun.
  2:{ intros x q. unfold quantile_cell. now rewrite predictions_draws. }
  do 3 eexists.
  split; [exact Hb|]. split; [exact Hrp|]. split; [exact Hrs|exact Hrun].
Qed.

(** C9: the block leaves [stan_results] bound to the same object with
    the same contents, and changes no object that existed before it ran;
    [pred_df_stan], which it writes to, is another object. *)
Theorem summarize_keeps_draws (st : State) (r : ref) (ds : list Draw) :
  has_draws st r (frame_of_draws ds) ->
  exists st',
    summarize st = Ok (tt, st') /\
    has_draws st' r (frame_of_draws ds) /\
    (forall r', is_Some (heap st !! r') -> heap st' !! r' = heap st !! r') /\
    (exists rp, vars st' !! "pred_df_stan" = Some rp /\ rp <> r).
Proof.
  intros Hd.
  destruct (summarize_run_draws st r ds Hd)
    as (rp & rs & pdf & Hb & Hrp & Hrs & Hrun).
  eexists. split; [exact Hrun|].
  destruct Hd as [Hv Hh].
  split; [|split].
  - split.
    + cbn [vars two rebound].
      now rewrite !lookup_insert_ne by discriminate.
    + rewrite two_rebound_frame by first [assumption | now rewrite Hh].
      exact Hh.
  - intros r' Hr'. now apply two_rebound_frame.
  - exists rp. split; [apply Hb|].
    intros ->. apply Hrp, elem_of_dom. now rewrite Hh.
Qed.

(** The draws of the scenario after the block. *)
Lemma summarize_keeps_draws_witness :
  exists st',
    summarize (initial draws3) = Ok (tt, st') /\
    has_draws st' 1%positive (frame_of_draws draws3) /\
    (forall r', is_Some (heap (initial draws3) !! r') ->
                heap st' !! r' = heap (initial draws3) !! r') /\
    (exists rp, vars st' !! "pred_df_stan" = Some rp /\ rp <> 1%positive).
Proof.
  apply (summarize_keeps_draws (initial draws3) 1%positive draws3).
  split; reflexivity.
Defined.

(** What [.copy()] is for: had [pred_df_stan] been bound to the object of
    [stan_results] itself, the first assignment of the loop would have
    added the column [x] to the draws. *)
Example assignment_through_alias :
  exists st,
    (r ← name "stan_results"; assign "pred_df_stan" r;;
     setitem_scalar "pred_df_stan" "x" (Some 0)) (initial draws3)
    = Ok (tt, st) /\
    (frame_of st "stan_results" ≫= fun df => Some (Frame.column_names df))
    = Some ["alpha"; "beta"; "sigma"; "x"].
Proof. eexists. split; vm_compute; reflexivity. Qed.

(** C10: after the loop the summary table has the columns [y_025],
    [y_50], [y_975], [y_500] in that order; [y_50] is missing in every
    row and the medians are in [y_500].  The error-bar step reads
    [y_025], [y_500] and [y_975], plots [y_500] as the centre line, and
    leaves [y_50] missing in every row. *)
Theorem median_written_to_y_500 (st : State) (r : ref) (ds : list Draw) :
  has_draws st r (frame_of_draws ds) ->
  exists st1 df1 e st2 df2 lo mid hi,
    summarize st = Ok (tt, st1) /\
    frame_of st1 "summary_stan" = Some df1 /\
    Frame.column_names df1 = ["y_025"; "y_50"; "y_975"; "y_500"] /\
    Frame.lookup_column "y_50" (columns df1) = Some (repeat Cell.nan 6) /\
    Frame.lookup_column "y_025" (columns df1) = Some lo /\
    Frame.lookup_column "y_500" (columns df1) = Some mid /\
    Frame.lookup_column "y_975" (columns df1) = Some hi /\
    mid = map (fun x => draw_cell ds x 0.5) (range 0 6) /\
    errorbar st1 = Ok (e, st2) /\
    e = mkErrorbar (range 0 6) mid (Series.sub lo mid, Series.sub mid hi) /\
    frame_of st2 "summary_stan" = Some df2 /\
    Frame.column_names df2
    = ["y_025"; "y_50"; "y_975"; "y_500"; "ci_lower_diff"; "ci_upper_diff"] /\
    Frame.lookup_column "y_50" (columns df2) = Some (repeat Cell.nan 6).
Proof.
  intros Hd.
  destruct (summarize_run_draws st r ds Hd)
    as (rp & rs & pdf & Hb & _ & _ & Hrun).
  do 8 eexists.
  split; [exact Hrun|].
  split; [now apply frame_of_two_summary|].
  split; [reflexivity|]. split; [reflexivity|].
  split; [reflexivity|]. split; [reflexivity|]. split; [reflexivity|].
  split; [reflexivity|].
  split; [apply errorbar_run; [exact Hb|reflexivity..]|].
  split; [reflexivity|].
  split; [now apply frame_of_two_summary|].
  split; reflexivity.
Qed.

(** The columns of the summary table of the scenario's draw set. *)
Lemma median_written_to_y_500_witness :
  exists st1 df1 e st2 df2 lo mid hi,
    summarize (initial draws3) = Ok (tt, st1) /\
    frame_of st1 "summary_stan" = Some df1 /\
    Frame.column_names df1 = ["y_025"; "y_50"; "y_975"; "y_500"] /\
    Frame.lookup_column "y_50" (columns df1) = Some (repeat Cell.nan 6) /\
    Frame.lookup_column "y_025" (columns df1) = Some lo /\
    Frame.lookup_column "y_500" (columns df1) = Some mid /\
    Frame.lookup_column "y_975" (columns df1) = Some hi /\
    mid = map (fun x => draw_cell draws3 x 0.5) (range 0 6) /\
    errorbar st1 = Ok (e, st2) /\
    e = mkErrorbar (range 0 6) mid (Series.sub lo mid, Series.sub mid hi) /\
    frame_of st2 "summary_stan" = Some df2 /\
    Frame.column_names df2
    = ["y_025"; "y_50"; "y_975"; "y_500"; "ci_lower_diff"; "ci_upper_diff"] /\
    Frame.lookup_column "y_50" (columns df2) = Some (repeat Cell.nan 6).
Proof.
  apply (median_written_to_y_500 (initial draws3) 1%positive draws3).
  split; reflexivity.
Defined.

(** * The rest of the scripts *)

(** X1: when the frame of [stan_results] lacks the column [alpha], or has
    it and lacks [beta], the block raises [KeyError] for that column (in
    the first pass of the loop). *)
Theorem summarize_missing_column (st : State) (r : ref) (df : DataFrame)
  (c : string) :
  has_draws st r df -> first_missing df = Some c ->
  summarize st = Raise (KeyError c).
Proof.
  intros Hd Hc. destruct (summarize_raises st r df Hd) as [Ha Hb].
  unfold first_missing in Hc.
  destruct (Frame.lookup_column "alpha" (columns df)) as [a|] eqn:Ea.
  - destruct (Frame.lookup_column "beta" (columns df)) eqn:Eb; [discriminate|].
    injection Hc as <-. now apply (Hb a).
  - injection Hc as <-. now apply Ha.
Qed.

Lemma summarize_missing_column_witness :
  summarize
    (mkState {["stan_results" := 1%positive]}
       {[1%positive := mkDataFrame [0%Z] [("alpha", [Some 1])]]})
  = Raise (KeyError "beta").
Proof.
  apply (summarize_missing_column _ 1%positive
           (mkDataFrame [0%Z] [("alpha", [Some 1])])).
  - split; reflexivity.
  - reflexivity.
Defined.

Lemma pred_fold (a b : series) (idx : list Z) (ca cb cs : series) :
  fold_left (pred_step a b) (range 0 6)
    (mkDataFrame idx [("alpha", ca); ("beta", cb); ("sigma", cs)])
  = mkDataFrame idx
      [("alpha", ca); ("beta", cb); ("sigma", cs);
       ("x", repeat (Some (inject_Z 5)) (length idx));
       ("y_0", predictions a b (length idx) 0);
       ("y_1", predictions a b (length idx) 1);
       ("y_2", predictions a b (length idx) 2);
       ("y_3", predictions a b (length idx) 3);
       ("y_4", predictions a b (length idx) 4);
       ("y_5", predictions a b (length idx) 5)].
Proof. reflexivity. Qed.

Lemma frame_of_two_pred st rp rs pdf sdf :
  bound st rp rs -> frame_of (two st rp rs pdf sdf) "pred_df_stan" = Some pdf.
Proof.
  intros (Hp & Hs & N). unfold frame_of. cbn [vars two].
  rewrite Hp. simpl. rewrite lookup_insert_ne by congruence.
  apply lookup_insert_eq.
Qed.

(** X2: the block leaves [pred_df_stan] with the rows and the three
    columns of the draws unchanged, followed by the column [x], which
    holds the last query point 5 in every row, and the columns [y_0] to
    [y_5], each holding [alpha + beta * x] of every draw for its [x]. *)
Theorem pred_df_stan_after_block (st : State) (r : ref) (ds : list Draw) :
  has_draws st r (frame_of_draws ds) ->
  exists st' pdf,
    summarize st = Ok (tt, st') /\
    frame_of st' "pred_df_stan" = Some pdf /\
    index pdf = index (frame_of_draws ds) /\
    Frame.column_names pdf
    = ["alpha"; "beta"; "sigma"; "x";
       "y_0"; "y_1"; "y_2"; "y_3"; "y_4"; "y_5"] /\
    Forall (fun c => Frame.lookup_column c (columns pdf)
                     = Frame.lookup_column c (columns (frame_of_draws ds)))
           ["alpha"; "beta"; "sigma"] /\
    Frame.lookup_column "x" (columns pdf)
    = Some (repeat (Some (inject_Z 5)) (length ds)) /\
    Forall (fun x => Frame.lookup_column (y_ x) (columns pdf)
                     = Some (map Some (predictive_samples ds x)))
           (range 0 6).
Proof.
  intros Hd.
  destruct (summarize_run st r (frame_of_draws ds) _ _ Hd eq_refl eq_refl)
    as (Hb & _ & _ & Hrun).
  unfold frame_of_draws at 3 in Hrun. rewrite pred_fold in Hrun.
  rewrite range_length in Hrun. rewrite !predictions_draws in Hrun.
  do 2 eexists. split; [exact Hrun|].
  split; [now apply frame_of_two_pred|].
  split; [reflexivity|]. split; [reflexivity|].
  split; [repeat constructor|]. split; [reflexivity|].
  repeat constructor.
Qed.

Lemma pred_df_stan_after_block_witness :
  exists st' pdf,
    summarize (initial draws3) = Ok (tt, st') /\
    frame_of st' "pred_df_stan" = Some pdf /\
    index pdf = index (frame_of_draws draws3) /\
    Frame.column_names pdf
    = ["alpha"; "beta"; "sigma"; "x";
       "y_0"; "y_1"; "y_2"; "y_3"; "y_4"; "y_5"] /\
    Forall (fun c => Frame.lookup_column c (columns pdf)
                     = Frame.lookup_column c (columns (frame_of_draws draws3)))
           ["alpha"; "beta"; "sigma"] /\
    Frame.lookup_column "x" (columns pdf)
    = Some (repeat (Some (inject_Z 5)) (length draws3)) /\
    Forall (fun x => Frame.lookup_column (y_ x) (columns pdf)
                     = Some (map Some (predictive_samples draws3 x)))
           (range 0 6).
Proof.
  apply (pred_df_stan_after_block (initial draws3) 1%positive draws3).
  split; reflexivity.
Defined.

(** The chart of a run on a non-empty draw set, in closed form. *)
Lemma errorbar_after_block st r ds :
  has_draws st r (frame_of_draws ds) ->
  exists rp rs pdf,
    bound (rebound st rp rs) rp rs /\
    (summarize;; errorbar) st
    = Ok (mkErrorbar (range 0 6)
            (map (fun x => draw_cell ds x 0.5) (range 0 6))
            (map (fun x => Cell.sub (draw_cell ds x 0.025)
                                    (draw_cell ds x 0.5)) (range 0 6),
             map (fun x => Cell.sub (draw_cell ds x 0.5)
                                    (draw_cell ds x 0.975)) (range 0 6)),
          two (rebound st rp rs) rp rs pdf
            (with_diffs (summary_closed (draw_cell ds))
               (map (fun x => draw_cell ds x 0.025) (range 0 6))
               (map (fun x => draw_cell ds x 0.5) (range 0 6))
               (map (fun x => draw_cell ds x 0.975) (range 0 6)))).
Proof.
  intros Hd.
  destruct (summarize_run_draws st r ds Hd)
    as (rp & rs & pdf & Hb & _ & _ & Hrun).
  exists rp, rs, pdf. split; [exact Hb|].
  erewrite bind_ok by exact Hrun.
  rewrite (errorbar_run _ _ _ _ _
             (map (fun x => draw_cell ds x 0.025) (range 0 6))
             (map (fun x => draw_cell ds x 0.5) (range 0 6))
             (map (fun x => draw_cell ds x 0.975) (range 0 6)) Hb)
    by reflexivity.
  reflexivity.
Qed.

(** X3: for a non-empty draw set of moderate magnitude the two rows of
    [yerr] given to [plt.errorbar] are, per query point, lower - median
    and median - upper; not one of their values is positive.  The
    numbers are the exact ones: the bound on the draws keeps float64
    from overflowing, and rounding is not modelled. *)
Theorem stan_errorbar_not_positive (st : State) (r : ref) (ds : list Draw) :
  has_draws st r (frame_of_draws ds) -> ds <> [] -> Forall moderate ds ->
  exists e st',
    (summarize;; errorbar) st = Ok (e, st') /\
    eb_x e = range 0 6 /\
    fst (eb_yerr e)
    = map (fun x => Cell.sub (draw_cell ds x 0.025) (draw_cell ds x 0.5))
          (range 0 6) /\
    snd (eb_yerr e)
    = map (fun x => Cell.sub (draw_cell ds x 0.5) (draw_cell ds x 0.975))
          (range 0 6) /\
    Forall cell_nonpositive (fst (eb_yerr e)) /\
    Forall cell_nonpositive (snd (eb_yerr e)).
Proof.
  intros Hd Hne _.
  destruct (errorbar_after_block st r ds Hd) as (rp & rs & pdf & Hb & Hrun).
  do 2 eexists. split; [exact Hrun|].
  cbn [eb_x eb_yerr fst snd].
  split; [reflexivity|]. split; [reflexivity|]. split; [reflexivity|].
  assert (Hs : forall x,
             Quantile.linear (predictive_samples ds x) 0.025
             <= Quantile.linear (predictive_samples ds x) 0.5 /\
             Quantile.linear (predictive_samples ds x) 0.5
             <= Quantile.linear (predictive_samples ds x) 0.975).
  { intros x. split; apply linear_mono;
      try (now apply predictive_samples_nonempty); lra. }
  split; apply List.Forall_forall; intros c Hin;
    apply in_map_iff in Hin; destruct Hin as (x & <- & _);
    rewrite !draw_cell_present by assumption;
    destruct (Hs x) as [H1 H2]; eexists; (split; [reflexivity|lra]).
Qed.

Lemma stan_errorbar_not_positive_witness :
  exists e st',
    (summarize;; errorbar) (initial draws3) = Ok (e, st') /\
    eb_x e = range 0 6 /\
    fst (eb_yerr e)
    = map (fun x => Cell.sub (draw_cell draws3 x 0.025)
                             (draw_cell draws3 x 0.5))
          (range 0 6) /\
    snd (eb_yerr e)
    = map (fun x => Cell.sub (draw_cell draws3 x 0.5)
                             (draw_cell draws3 x 0.975))
          (range 0 6) /\
    Forall cell_nonpositive (fst (eb_yerr e)) /\
    Forall cell_nonpositive (snd (eb_yerr e)).
Proof.
  apply (stan_errorbar_not_positive (initial draws3) 1%positive draws3).
  - split; reflexivity.
  - discriminate.
  - repeat constructor; vm_compute; discriminate.
Defined.

(** X4: running the chart step a second time gives the same chart and
    leaves the state as the first run left it: the two difference
    columns are replaced in place by the same values. *)
Theorem errorbar_again (st : State) (r : ref) (ds : list Draw) :
  has_draws st r (frame_of_draws ds) ->
  exists e st',
    (summarize;; errorbar) st = Ok (e, st') /\
    errorbar st' = Ok (e, st').
Proof.
  intros Hd.
  destruct (errorbar_after_block st r ds Hd) as (rp & rs & pdf & Hb & Hrun).
  do 2 eexists. split; [exact Hrun|].
  rewrite (errorbar_run _ _ _ _ _
             (map (fun x => draw_cell ds x 0.025) (range 0 6))
             (map (fun x => draw_cell ds x 0.5) (range 0 6))
             (map (fun x => draw_cell ds x 0.975) (range 0 6)) Hb)
    by reflexivity.
  reflexivity.
Qed.

Lemma errorbar_again_witness :
  exists e st',
    (summarize;; errorbar) (initial draws3) = Ok (e, st') /\
    errorbar st' = Ok (e, st').
Proof.
  apply (errorbar_again (initial draws3) 1%positive draws3).
  split; reflexivity.
Defined.

Lemma getitem_var st v c r df s :
  vars st !! v = Some r -> heap st !! r = Some df ->
  Frame.lookup_column c (columns df) = Some s ->
  getitem v c st = Ok (s, st).
Proof.
  intros Hv Hh Hc. unfold getitem, name, deref, lift, mbind, M_bind.
  rewrite Hv, Hh. unfold Frame.getitem. now rewrite Hc.
Qed.

Lemma setitem_var st v c r df s :
  vars st !! v = Some r -> heap st !! r = Some df ->
  setitem v c s st
  = Ok (tt, mkState (vars st) (<[r := Frame.setitem df c s]> (heap st))).
Proof.
  intros Hv Hh. unfold setitem, name, deref, mutate, mbind, M_bind.
  now rewrite Hv, Hh.
Qed.

Lemma sub_columns {A} (f g : A -> Q) (l : list A) :
  Series.sub (map (fun p => Some (f p)) l) (map (fun p => Some (g p)) l)
  = map (fun p => Some (f p - g p)) l.
Proof.
  unfold Series.sub. induction l as [|p l IH]; simpl; [reflexivity|].
  now rewrite IH.
Qed.

(** The frame [pred_df_ols] after the two assignments. *)
Lemma ols_errorbar_run st ro rd f d m l u xs :
  vars st !! "pred_df_ols" = Some ro -> heap st !! ro = Some f ->
  vars st !! "df" = Some rd -> heap st !! rd = Some d -> ro <> rd ->
  Frame.lookup_column "mean" (columns f) = Some m ->
  Frame.lookup_column "mean_ci_lower" (columns f) = Some l ->
  Frame.lookup_column "mean_ci_upper" (columns f) = Some u ->
  Frame.lookup_column "x" (columns d) = Some xs ->
  ols_errorbar st
  = Ok (mkChart xs m (Series.sub m l, Series.sub u m),
        mkState (vars st)
          (<[ro := Frame.setitem
                     (Frame.setitem f "ci_lower_diff" (Series.sub m l))
                     "ci_upper_diff" (Series.sub u m)]> (heap st))).
Proof.
  intros Hvo Hho Hvd Hhd N Hm Hl Hu Hx. unfold ols_errorbar.
  erewrite bind_ok by (eapply getitem_var; eassumption).
  erewrite bind_ok by (eapply getitem_var; eassumption).
  erewrite bind_ok by (eapply setitem_var; eassumption).
  set (f1 := Frame.setitem f "ci_lower_diff" (Series.sub m l)).
  set (st1 := mkState (vars st) (<[ro := f1]> (heap st))).
  assert (Hh1 : heap st1 !! ro = Some f1) by apply lookup_insert_eq.
  assert (Hv1 : vars st1 !! "pred_df_ols" = Some ro) by exact Hvo.
  erewrite bind_ok.
  2:{ eapply getitem_var; [exact Hv1|exact Hh1|].
      subst f1. cbn [Frame.setitem columns].
      rewrite FrameFacts.lookup_replace_ne by discriminate. exact Hu. }
  erewrite bind_ok.
  2:{ eapply getitem_var; [exact Hv1|exact Hh1|].
      subst f1. cbn [Frame.setitem columns].
      rewrite FrameFacts.lookup_replace_ne by discriminate. exact Hm. }
  erewrite bind_ok by (eapply setitem_var; eassumption).
  set (f2 := Frame.setitem f1 "ci_upper_diff" (Series.sub u m)).
  subst st1. cbn [vars heap]. rewrite insert_insert_eq.
  set (st2 := mkState (vars st) (<[ro := f2]> (heap st))).
  assert (Hh2 : heap st2 !! ro = Some f2) by apply lookup_insert_eq.
  assert (Hv2 : vars st2 !! "pred_df_ols" = Some ro) by exact Hvo.
  assert (Hd2 : heap st2 !! rd = Some d).
  { subst st2. cbn [heap]. now rewrite lookup_insert_ne. }
  erewrite bind_ok by (eapply getitem_var; [exact Hvd|exact Hd2|exact Hx]).
  erewrite bind_ok.
  2:{ eapply getitem_var; [exact Hv2|exact Hh2|].
      subst f2 f1. cbn [Frame.setitem columns].
      rewrite !FrameFacts.lookup_replace_ne by discriminate. exact Hm. }
  erewrite bind_ok.
  2:{ eapply getitem_var; [exact Hv2|exact Hh2|].
      subst f2 f1. cbn [Frame.setitem columns].
      rewrite FrameFacts.lookup_replace_ne by discriminate.
      apply FrameFacts.lookup_replace_eq. }
  erewrite bind_ok.
  2:{ eapply getitem_var; [exact Hv2|exact Hh2|].
      subst f2. cbn [Frame.setitem columns].
      apply FrameFacts.lookup_replace_eq. }
  reflexivity.
Qed.

(** X5: for a frame of predictions whose band holds the mean in every
    row, the two rows of [yerr] of the OLS chart are mean - lower and
    upper - mean, none of them negative; the step adds its two columns to
    [pred_df_ols], keeps every other column and the rows, and leaves the
    dataset alone. *)
Theorem ols_errorbar_distances (st : State) (ro rd : ref) (f d : DataFrame)
  (ps : list Prediction) (xs : series) :
  vars st !! "pred_df_ols" = Some ro -> heap st !! ro = Some f ->
  vars st !! "df" = Some rd -> heap st !! rd = Some d -> ro <> rd ->
  Frame.lookup_column "mean" (columns f)
  = Some (map (fun p => Some (mean p)) ps) ->
  Frame.lookup_column "mean_ci_lower" (columns f)
  = Some (map (fun p => Some (mean_ci_lower p)) ps) ->
  Frame.lookup_column "mean_ci_upper" (columns f)
  = Some (map (fun p => Some (mean_ci_upper p)) ps) ->
  Frame.lookup_column "x" (columns d) = Some xs ->
  Forall (fun p => mean_ci_lower p <= mean p /\ mean p <= mean_ci_upper p)
         ps ->
  exists c st' f',
    ols_errorbar st = Ok (c, st') /\
    ch_x c = xs /\
    ch_y c = map (fun p => Some (mean p)) ps /\
    fst (ch_yerr c) = map (fun p => Some (mean p - mean_ci_lower p)) ps /\
    snd (ch_yerr c) = map (fun p => Some (mean_ci_upper p - mean p)) ps /\
    Forall cell_nonnegative (fst (ch_yerr c)) /\
    Forall cell_nonnegative (snd (ch_yerr c)) /\
    heap st' !! ro = Some f' /\
    index f' = index f /\
    (forall k, k <> "ci_lower_diff" -> k <> "ci_upper_diff" ->
               Frame.lookup_column k (columns f')
               = Frame.lookup_column k (columns f)) /\
    heap st' !! rd = Some d.
Proof.
  intros Hvo Hho Hvd Hhd N Hm Hl Hu Hx Hband.
  do 3 eexists.
  split; [eapply ols_errorbar_run; eassumption|].
  cbn [ch_x ch_y ch_yerr fst snd heap].
  rewrite !sub_columns.
  split; [reflexivity|]. split; [reflexivity|].
  split; [reflexivity|]. split; [reflexivity|].
  split; [|split].
  - apply List.Forall_forall. intros c Hin.
    apply in_map_iff in Hin. destruct Hin as (p & <- & Hp).
    rewrite List.Forall_forall in Hband. destruct (Hband p Hp).
    eexists. split; [reflexivity|lra].
  - apply List.Forall_forall. intros c Hin.
    apply in_map_iff in Hin. destruct Hin as (p & <- & Hp).
    rewrite List.Forall_forall in Hband. destruct (Hband p Hp).
    eexists. split; [reflexivity|lra].
  - split; [apply lookup_insert_eq|]. split; [reflexivity|].
    split.
    + intros k N1 N2. cbn [Frame.setitem columns].
      now rewrite !FrameFacts.lookup_replace_ne by congruence.
    + now rewrite lookup_insert_ne.
Qed.

Lemma ols_errorbar_distances_witness :
  exists c st' f',
    ols_errorbar (ols_state bands6) = Ok (c, st') /\
    ch_x c = map (fun v => Some (inject_Z v)) (range 0 6) /\
    ch_y c = map (fun p => Some (mean p)) bands6 /\
    fst (ch_yerr c)
    = map (fun p => Some (mean p - mean_ci_lower p)) bands6 /\
    snd (ch_yerr c)
    = map (fun p => Some (mean_ci_upper p - mean p)) bands6 /\
    Forall cell_nonnegative (fst (ch_yerr c)) /\
    Forall cell_nonnegative (snd (ch_yerr c)) /\
    heap st' !! 2%positive = Some f' /\
    index f' = index (frame_of_predictions bands6) /\
    (forall k, k <> "ci_lower_diff" -> k <> "ci_upper_diff" ->
               Frame.lookup_column k (columns f')
               = Frame.lookup_column k
                   (columns (frame_of_predictions bands6))) /\
    heap st' !! 1%positive = Some dataset.
Proof.
  apply (ols_errorbar_distances (ols_state bands6) 2%positive 1%positive
           (frame_of_predictions bands6) dataset bands6).
  - reflexivity.
  - reflexivity.
  - reflexivity.
  - reflexivity.
  - discriminate.
  - reflexivity.
  - reflexivity.
  - reflexivity.
  - reflexivity.
  - repeat constructor; vm_compute; discriminate.
Defined.

Lemma position_seq (i s m : nat) :
  (s <= i < s + m)%nat ->
  Frame.position (Z.of_nat i)
    (map (fun j => (0 + Z.of_nat j)%Z) (seq s m)) = Some (i - s)%nat.
Proof.
  revert s. induction m as [|m IH]; intros s Hi; [lia|].
  cbn [seq map Frame.position].
  destruct (Z.eqb_spec (0 + Z.of_nat s) (Z.of_nat i)) as [E|N].
  - f_equal. lia.
  - rewrite IH by lia. cbn. f_equal. lia.
Qed.

Lemma position_range (i n : nat) :
  (i < n)%nat ->
  Frame.position (Z.of_nat i) (range 0 (Z.of_nat n)) = Some i.
Proof.
  intros Hi. unfold range.
  replace (Z.to_nat (Z.of_nat n - 0)) with n by lia.
  rewrite position_seq by lia. f_equal. lia.
Qed.

Lemma lookup_map {A B} (f : A -> B) (l : list A) (i : nat) (a : A) :
  l !! i = Some a -> map f l !! i = Some (f a).
Proof.
  revert i. induction l as [|b l IH]; intros [|i] H; try discriminate.
  - now injection H as ->.
  - now apply IH.
Qed.

Lemma series_at_draws (f : Draw -> Q) ds (k : nat) d :
  ds !! k = Some d ->
  series_at (range 0 (Z.of_nat (length ds))) (map (fun d => Some (f d)) ds)
            (Z.of_nat k)
  = Ok (Some (f d)).
Proof.
  intros Hk.
  assert (Hlt : (k < length ds)%nat) by (eapply lookup_lt_Some; eassumption).
  unfold series_at. rewrite position_range by assumption.
  pose proof (lookup_map (fun d => Some (f d)) ds k d Hk) as E.
  unfold Series.series, Cell.cell in *.
  now rewrite E.
Qed.

Lemma getitem_at_draws st r ds (k : nat) d :
  has_draws st r (frame_of_draws ds) -> ds !! k = Some d ->
  getitem_at "stan_results" "alpha" (Z.of_nat k) st = Ok (Some (alpha d), st) /\
  getitem_at "stan_results" "beta" (Z.of_nat k) st = Ok (Some (beta d), st).
Proof.
  intros [Hv Hh] Hk.
  split.
  - unfold getitem_at, name, deref, lift, mbind, M_bind.
    rewrite Hv, Hh. unfold Frame.getitem.
    cbn [frame_of_draws columns index Frame.lookup_column String.eqb
         Ascii.eqb Bool.eqb].
    now rewrite (series_at_draws alpha ds k d Hk).
  - unfold getitem_at, name, deref, lift, mbind, M_bind.
    rewrite Hv, Hh. unfold Frame.getitem.
    cbn [frame_of_draws columns index Frame.lookup_column String.eqb
         Ascii.eqb Bool.eqb].
    now rewrite (series_at_draws beta ds k d Hk).
Qed.

(** A line through [a] at 0 with slope [b], the way numpy evaluates it. *)
Lemma polyval_line (a b x : Q) :
  cell_is (polyval (poly1d [Some b; Some a]) (Some x)) (a + b * x).
Proof.
  unfold poly1d, cell_is. cbn [trim_zeros].
  destruct (Qeq_bool b 0) eqn:Eb.
  - apply Qeq_bool_iff in Eb. destruct (Qeq_bool a 0) eqn:Ea.
    + apply Qeq_bool_iff in Ea. eexists. split; [reflexivity|].
      rewrite Ea, Eb. ring.
    + eexists. split; [reflexivity|]. rewrite Eb. ring.
  - eexists. split; [reflexivity|]. ring.
Qed.

Lemma plot_line_run st r ds (k : nat) d :
  has_draws st r (frame_of_draws ds) -> ds !! k = Some d ->
  plot_line (Z.of_nat k) st
  = Ok ((arange 6,
         map (fun v => polyval (poly1d [Some (beta d); Some (alpha d)])
                               (Some (inject_Z v)))
             (arange 6)), st).
Proof.
  intros Hd Hk. destruct (getitem_at_draws st r ds k d Hd Hk) as [Ha Hb].
  unfold plot_line.
  erewrite bind_ok by exact Hb. erewrite bind_ok by exact Ha.
  reflexivity.
Qed.

Lemma for_collect_lines st r ds :
  has_draws st r (frame_of_draws ds) ->
  forall (m k : nat), (k + m = length ds)%nat ->
    for_collect (map (fun j => (0 + Z.of_nat j)%Z) (seq k m)) plot_line st
    = Ok (map (fun d =>
                 (arange 6,
                  map (fun v =>
                         polyval (poly1d [Some (beta d); Some (alpha d)])
                                 (Some (inject_Z v)))
                      (arange 6)))
              (drop k ds), st).
Proof.
  intros Hd. induction m as [|m IH]; intros k Hk.
  - rewrite drop_ge by lia. reflexivity.
  - destruct (lookup_lt_is_Some_2 ds k) as [d Hd']; [lia|].
    rewrite (drop_S _ _ _ Hd'). cbn [seq map for_collect].
    change (0 + Z.of_nat k)%Z with (Z.of_nat k).
    erewrite bind_ok by (eapply plot_line_run; eassumption).
    erewrite bind_ok by (apply IH; lia).
    reflexivity.
Qed.

(** X6: the loop that draws all fits plots one line per draw, in the
    order of the draws, over the x values 0 to 5; the line of a draw
    holds [alpha + beta * x] at each [x]; the state is left as it was. *)
Theorem fit_lines_are_predictions (st : State) (r : ref) (ds : list Draw) :
  has_draws st r (frame_of_draws ds) ->
  exists lines,
    fit_lines st = Ok (lines, st) /\
    Forall2 (fun d line =>
               fst line = range 0 6 /\
               Forall2 (fun x y => cell_is y (alpha d + beta d * inject_Z x))
                       (range 0 6) (snd line))
            ds lines.
Proof.
  intros Hd. eexists. split.
  - unfold fit_lines. destruct Hd as [Hv Hh].
    unfold name at 1. erewrite bind_ok by (rewrite Hv; reflexivity).
    unfold deref at 1. erewrite bind_ok by (rewrite Hh; reflexivity).
    cbn [frame_of_draws index]. rewrite range_length.
    unfold range at 1. replace (Z.to_nat (Z.of_nat (length ds) - 0))
      with (length ds) by lia.
    apply (for_collect_lines st r ds); [now split|lia].
  - rewrite drop_0. clear Hd. induction ds as [|d ds IH]; [constructor|].
    cbn [map]. constructor; [|apply IH].
    split; [reflexivity|]. cbn [snd].
    change (arange 6) with [0%Z; 1%Z; 2%Z; 3%Z; 4%Z; 5%Z].
    change (range 0 6) with [0%Z; 1%Z; 2%Z; 3%Z; 4%Z; 5%Z].
    cbn [map]. repeat (constructor; [apply polyval_line|]). constructor.
Qed.

Lemma fit_lines_are_predictions_witness :
  exists lines,
    fit_lines (initial draws3) = Ok (lines, initial draws3) /\
    Forall2 (fun d line =>
               fst line = range 0 6 /\
               Forall2 (fun x y => cell_is y (alpha d + beta d * inject_Z x))
                       (range 0 6) (snd line))
            draws3 lines.
Proof.
  apply (fit_lines_are_predictions (initial draws3) 1%positive draws3).
  split; reflexivity.
Defined.

Lemma label_position_none (l : string) (ls : list string) :
  label_position l ls = None <-> ~ In l ls.
Proof.
  induction ls as [|l0 ls IH]; cbn [label_position In]; [tauto|].
  destruct (String.eqb_spec l0 l) as [E|N].
  - split; [discriminate|]. intros H. exfalso. apply H. now left.
  - destruct (label_position l ls) eqn:E; cbn [option_map].
    + split; [discriminate|]. intros H. exfalso.
      assert (~ In l ls) as H' by tauto.
      apply IH in H'. discriminate.
    + split; [|reflexivity]. intros _ [H|H]; [contradiction|].
      now apply (proj1 IH).
Qed.

(** The rows of [stan_summary] are labelled by the columns of
    [stan_results]. *)
Lemma stan_summary_labels (df : DataFrame) (f g h : string * series -> cell) :
  labels
    (label_setitem
       (label_setitem
          (label_setitem empty_frame "0.95"
             (map (fun ks => (fst ks, f ks)) (columns df)))
          "0.50" (map (fun ks => (fst ks, g ks)) (columns df)))
       "0.05" (map (fun ks => (fst ks, h ks)) (columns df)))
  = Frame.column_names df.
Proof.
  unfold Frame.column_names.
  destruct (columns df) as [|c cs]; [reflexivity|].
  cbn. f_equal. rewrite map_map. now apply map_ext.
Qed.

Lemma second_way_on_stops (df : DataFrame) :
  second_way_on df = Raise (KeyError "0.95")
  <-> ~ In "0.95" (Frame.column_names df).
Proof.
  unfold second_way_on, frame_quantile.
  change (Quantile.valid_level 0.95) with true.
  change (Quantile.valid_level 0.5) with true.
  change (Quantile.valid_level 0.05) with true.
  cbn [mbind result_bind]. unfold loc_row.
  rewrite stan_summary_labels.
  rewrite <- label_position_none.
  destruct (label_position "0.95" (Frame.column_names df)).
  - split; discriminate.
  - split; reflexivity.
Qed.

(** X7: the second way of the longer script raises [KeyError] for
    ["0.95"] at [stan_summary.loc["0.95"]] exactly when [stan_results]
    has no column of that name: the rows of [stan_summary] are labelled
    by the columns of [stan_results], and ["0.95"] is one of its own
    columns.  On a frame of draws it always raises. *)
Theorem second_way_raises (st : State) (r : ref) (df : DataFrame) :
  has_draws st r df ->
  (second_way st = Raise (KeyError "0.95")
   <-> ~ In "0.95" (Frame.column_names df)) /\
  (forall ds, df = frame_of_draws ds ->
              second_way st = Raise (KeyError "0.95")).
Proof.
  intros [Hv Hh].
  assert (E : second_way st = Raise (KeyError "0.95")
              <-> second_way_on df = Raise (KeyError "0.95")).
  { unfold second_way, name, deref, lift, mbind, M_bind.
    rewrite Hv, Hh. destruct (second_way_on df); split; congruence. }
  split.
  - rewrite E. apply second_way_on_stops.
  - intros ds ->. apply E, second_way_on_stops.
    cbn. intros [H|[H|[H|[]]]]; discriminate.
Qed.

Lemma second_way_raises_witness :
  (second_way (initial draws3) = Raise (KeyError "0.95")
   <-> ~ In "0.95" (Frame.column_names (frame_of_draws draws3))) /\
  (forall ds, frame_of_draws draws3 = frame_of_draws ds ->
              second_way (initial draws3) = Raise (KeyError "0.95")).
Proof.
  apply (second_way_raises (initial draws3) 1%positive
           (frame_of_draws draws3)).
  split; reflexivity.
Defined.

Module EnvelopeFacts.
Import Quantile.

Lemma last_index (l : list Q) :
  l <> [] -> (0 <= Z.of_nat (length l) - 1)%Z.
Proof. destruct l; [congruence|simpl length; lia]. Qed.

Lemma order_stat_in (l : list Q) (k : Z) :
  (0 <= k < Z.of_nat (length l))%Z -> In (order_stat l k) l.
Proof.
  intros Hk. unfold order_stat.
  apply (Permutation_in _ (sort_perm l)), nth_In.
  rewrite sort_length. lia.
Qed.

Lemma order_stat_min (l : list Q) (v : Q) :
  In v l -> order_stat l 0 <= v.
Proof.
  intros Hv. apply (Permutation_in _ (Permutation_sym (sort_perm l))) in Hv.
  destruct (In_nth _ _ 0 Hv) as (i & Hi & <-).
  unfold order_stat. apply sorted_nth_le; [apply sort_sorted|]. lia.
Qed.

Lemma order_stat_max (l : list Q) (v : Q) :
  In v l -> v <= order_stat l (Z.of_nat (length l) - 1).
Proof.
  intros Hv. apply (Permutation_in _ (Permutation_sym (sort_perm l))) in Hv.
  destruct (In_nth _ _ 0 Hv) as (i & Hi & <-).
  unfold order_stat. apply sorted_nth_le; [apply sort_sorted|].
  rewrite sort_length in *. lia.
Qed.

Lemma at_index_integer (l : list Q) (k : Z) :
  at_index l (inject_Z k) == order_stat l k.
Proof.
  unfold at_index. rewrite Qfloor_Z.
  assert (G : inject_Z k - inject_Z k == 0) by ring.
  rewrite G. ring.
Qed.

Lemma linear_at_0 (l : list Q) : linear l 0 == order_stat l 0.
Proof.
  unfold linear.
  rewrite (at_index_comp _ _ (inject_Z 0)) by (change (inject_Z 0) with 0; ring).
  apply at_index_integer.
Qed.

Lemma linear_at_1 (l : list Q) :
  linear l 1 == order_stat l (Z.of_nat (length l) - 1).
Proof.
  unfold linear.
  rewrite (at_index_comp _ _ (inject_Z (Z.of_nat (length l) - 1))) by ring.
  apply at_index_integer.
Qed.

Lemma linear_within (l : list Q) (p : Q) :
  l <> [] -> 0 <= p -> p <= 1 ->
  order_stat l 0 <= linear l p /\
  linear l p <= order_stat l (Z.of_nat (length l) - 1).
Proof.
  intros Hl H0 H1.
  pose proof (linear_mono l 0 p Hl) as Ha.
  pose proof (linear_mono l p 1 Hl) as Hb.
  pose proof (linear_at_0 l). pose proof (linear_at_1 l).
  split; [rewrite <- linear_at_0; apply Ha; lra
         |rewrite <- linear_at_1; apply Hb; lra].
Qed.

End EnvelopeFacts.

Import EnvelopeFacts.

(** X8: on a non-empty sample the quantile at level 0 is the smallest
    value of the sample and the quantile at level 1 the largest. *)
Theorem quantile_endpoints (l : list Q) :
  l <> [] ->
  exists lo hi q0 q1,
    In lo l /\ In hi l /\
    (forall v, In v l -> lo <= v /\ v <= hi) /\
    quantile (map Some l) 0 = Ok (Some q0) /\ q0 == lo /\
    quantile (map Some l) 1 = Ok (Some q1) /\ q1 == hi.
Proof.
  intros Hl. pose proof (last_index l Hl) as Hn.
  exists (Quantile.order_stat l 0),
         (Quantile.order_stat l (Z.of_nat (length l) - 1)),
         (Quantile.linear l 0), (Quantile.linear l 1).
  split; [apply order_stat_in; lia|].
  split; [apply order_stat_in; lia|].
  split; [intros v Hv; split;
          [now apply order_stat_min|now apply order_stat_max]|].
  split; [apply quantile_present; [assumption|lra..]|].
  split; [apply linear_at_0|].
  split; [apply quantile_present; [assumption|lra..]|].
  apply linear_at_1.
Qed.

Lemma quantile_endpoints_witness :
  exists lo hi q0 q1,
    In lo [3; 1; 2] /\ In hi [3; 1; 2] /\
    (forall v, In v [3; 1; 2] -> lo <= v /\ v <= hi) /\
    quantile (map Some [3; 1; 2]) 0 = Ok (Some q0) /\ q0 == lo /\
    quantile (map Some [3; 1; 2]) 1 = Ok (Some q1) /\ q1 == hi.
Proof. apply (quantile_endpoints [3; 1; 2]). discriminate. Defined.

Lemma in_predictive_samples ds x v :
  In v (predictive_samples ds x) ->
  exists d, In d ds /\ v = alpha d + beta d * inject_Z x.
Proof.
  unfold predictive_samples. intros H. apply in_map_iff in H.
  destruct H as (d & <- & Hd). now exists d.
Qed.

(** X9: for a non-empty draw set of moderate magnitude, at every query
    point some draw's value is at most the lower bound and some draw's
    value is at least the upper bound: the band lies within the lines of
    the draws.  The numbers are the exact ones: the bound on the draws
    keeps float64 from overflowing, and rounding is not modelled. *)
Theorem rows_within_draws (ds : list Draw) :
  ds <> [] -> Forall moderate ds ->
  exists df,
    summary_table ds = Ok df /\
    Forall (fun xr =>
              exists dlo dhi l m u,
                In dlo ds /\ In dhi ds /\
                lower (snd xr) = Some l /\ median (snd xr) = Some m /\
                upper (snd xr) = Some u /\
                alpha dlo + beta dlo * inject_Z (fst xr) <= l /\
                l <= m /\ m <= u /\
                u <= alpha dhi + beta dhi * inject_Z (fst xr))
           (rows df).
Proof.
  intros Hd _. exists (summary_closed (draw_cell ds)).
  split; [apply summary_table_closed|].
  rewrite rows_closed. apply List.Forall_forall. intros [x0 r] Hin.
  apply in_map_iff in Hin. destruct Hin as (x & E & _).
  injection E as <- <-. cbn [fst snd lower median upper].
  rewrite !draw_cell_present by assumption.
  pose (ys := predictive_samples ds x). change (predictive_samples ds x) with ys.
  assert (Hys : ys <> []) by now apply predictive_samples_nonempty.
  pose proof (last_index ys Hys) as Hn.
  destruct (in_predictive_samples ds x (Quantile.order_stat ys 0))
    as (dlo & Hlo & Elo); [apply (order_stat_in ys); lia|].
  destruct (in_predictive_samples ds x
              (Quantile.order_stat ys (Z.of_nat (length ys) - 1)))
    as (dhi & Hhi & Ehi); [apply (order_stat_in ys); lia|].
  exists dlo, dhi. do 3 eexists.
  split; [exact Hlo|]. split; [exact Hhi|].
  split; [reflexivity|]. split; [reflexivity|]. split; [reflexivity|].
  rewrite <- Elo, <- Ehi.
  destruct (linear_within ys 0.025 Hys) as [H1 _]; [lra..|].
  destruct (linear_within ys 0.975 Hys) as [_ H2]; [lra..|].
  split; [exact H1|].
  split; [apply linear_mono; [assumption|lra..]|].
  split; [apply linear_mono; [assumption|lra..]|].
  exact H2.
Qed.

Lemma rows_within_draws_witness :
  exists df,
    summary_table draws3 = Ok df /\
    Forall (fun xr =>
              exists dlo dhi l m u,
                In dlo draws3 /\ In dhi draws3 /\
                lower (snd xr) = Some l /\ median (snd xr) = Some m /\
                upper (snd xr) = Some u /\
                alpha dlo + beta dlo * inject_Z (fst xr) <= l /\
                l <= m /\ m <= u /\
                u <= alpha dhi + beta dhi * inject_Z (fst xr))
           (rows df).
Proof.
  apply (rows_within_draws draws3).
  - discriminate.
  - repeat constructor; vm_compute; discriminate.
Defined.

Module OrderFacts.
Import Quantile.

Lemma below_perm v l l' : Permutation l l' -> below v l = below v l'.
Proof.
  induction 1; cbn [below]; try lia.
Qed.

Lemma upto_perm v l l' : Permutation l l' -> upto v l = upto v l'.
Proof.
  induction 1; cbn [upto]; try lia.
Qed.

Lemma below_none v l : Forall (Qle v) l -> below v l = 0%nat.
Proof.
  induction 1 as [|u l Hu _ IH]; [reflexivity|]. cbn [below].
  apply Qle_bool_iff in Hu. now rewrite Hu, IH.
Qed.

Lemma sorted_nth_counts (s : list Q) :
  StronglySorted Qle s ->
  forall k, (k < length s)%nat ->
    (below (nth k s 0%Q) s <= k)%nat /\ (k < upto (nth k s 0%Q) s)%nat.
Proof.
  induction 1 as [|u s Hs IH Hu]; intros k Hk; [simpl in Hk; lia|].
  destruct k as [|k]; cbn [nth below upto].
  - rewrite (below_none u s Hu).
    assert (E : Qle_bool u u = true) by (apply Qle_bool_iff; lra).
    rewrite E. lia.
  - simpl in Hk. destruct (IH k) as [H1 H2]; [lia|].
    assert (Hle : u <= nth k s 0).
    { rewrite List.Forall_forall in Hu. apply Hu, nth_In. lia. }
    apply Qle_bool_iff in Hle. rewrite Hle.
    destruct (Qle_bool (nth k s 0) u); lia.
Qed.

Lemma upto_below v w l : v < w -> (upto v l <= below w l)%nat.
Proof.
  intros Hvw. induction l as [|u l IH]; cbn [upto below]; [lia|].
  destruct (Qle_bool u v) eqn:E1; destruct (Qle_bool w u) eqn:E2; try lia.
  apply Qle_bool_iff in E1, E2. lra.
Qed.

Lemma rank_unique v w l k :
  (below v l <= k < upto v l)%nat -> (below w l <= k < upto w l)%nat ->
  v == w.
Proof.
  intros Hv Hw.
  destruct (Q_dec v w) as [[H|H]|H]; [| |exact H].
  - pose proof (upto_below v w l H). lia.
  - pose proof (upto_below w v l H). lia.
Qed.

(** The order statistics of a sample do not depend on its order. *)
Lemma order_stat_perm l l' (k : Z) :
  Permutation l l' -> order_stat l k == order_stat l' k.
Proof.
  intros HP. unfold order_stat.
  pose proof (Permutation_length HP) as Hlen.
  destruct (Nat.lt_ge_cases (Z.to_nat k) (length l)) as [Hk|Hk].
  - assert (HPs : Permutation (sort l) (sort l')).
    { rewrite sort_perm, HP. symmetry. apply sort_perm. }
    apply (rank_unique _ _ (sort l) (Z.to_nat k)).
    + apply sorted_nth_counts; [apply sort_sorted|].
      now rewrite sort_length.
    + rewrite (below_perm _ _ _ HPs), (upto_perm _ _ _ HPs).
      apply sorted_nth_counts; [apply sort_sorted|].
      rewrite sort_length. lia.
  - rewrite !nth_overflow; [reflexivity| |]; rewrite sort_length; lia.
Qed.

Lemma linear_perm l l' (q : Q) :
  Permutation l l' -> linear l q == linear l' q.
Proof.
  intros HP. unfold linear, at_index.
  rewrite <- (Permutation_length HP).
  now rewrite !(order_stat_perm l l' _ HP).
Qed.

End OrderFacts.

Import OrderFacts.

Lemma draw_cell_perm ds ds' x q :
  Permutation ds ds' -> cell_equiv (draw_cell ds x q) (draw_cell ds' x q).
Proof.
  intros HP.
  assert (HPy : Permutation (predictive_samples ds x)
                            (predictive_samples ds' x))
    by (unfold predictive_samples; now apply Permutation_map).
  destruct ds as [|d ds].
  - apply Permutation_nil in HP. subst ds'. exact I.
  - assert (Hne : ds' <> []).
    { intros ->. apply Permutation_sym, Permutation_nil in HP. discriminate. }
    rewrite !draw_cell_present by (assumption || discriminate).
    cbn [cell_equiv]. now apply linear_perm.
Qed.

(** X10: two draw sets that differ by the order of their draws give
    summary tables with the same row labels and equal cells. *)
Theorem summary_ignores_draw_order (ds ds' : list Draw) :
  Permutation ds ds' ->
  exists df df',
    summary_table ds = Ok df /\ summary_table ds' = Ok df' /\
    Forall2 (fun xr xr' => fst xr = fst xr' /\ row_equiv (snd xr) (snd xr'))
            (rows df) (rows df').
Proof.
  intros HP.
  exists (summary_closed (draw_cell ds)), (summary_closed (draw_cell ds')).
  split; [apply summary_table_closed|]. split; [apply summary_table_closed|].
  rewrite !rows_closed.
  induction (range 0 6) as [|x xs IH]; cbn [map]; constructor; [|exact IH].
  split; [reflexivity|]. cbn [snd].
  repeat split; cbn [lower median upper]; now apply draw_cell_perm.
Qed.

Lemma summary_ignores_draw_order_witness :
  exists df df',
    summary_table draws3 = Ok df /\ summary_table (rev draws3) = Ok df' /\
    Forall2 (fun xr xr' => fst xr = fst xr' /\ row_equiv (snd xr) (snd xr'))
            (rows df) (rows df').
Proof.
  apply (summary_ignores_draw_order draws3 (rev draws3)).
  apply Permutation_rev.
Defined.

Module LocFacts.
Import Frame.

Lemma position_lookup r idx i :
  position r idx = Some i -> idx !! i = Some r.
Proof.
  revert i. induction idx as [|r0 idx IH]; intros i H; [discriminate|].
  cbn [position] in H. destruct (Z.eqb_spec r0 r) as [->|N].
  - now injection H as <-.
  - destruct (position r idx) as [j|]; [|discriminate].
    injection H as <-. now apply IH.
Qed.

Lemma position_app_l r idx tl i :
  position r idx = Some i -> position r (idx ++ tl) = Some i.
Proof.
  revert i. induction idx as [|r0 idx IH]; intros i H; [discriminate|].
  cbn [position app] in *. destruct (Z.eqb r0 r); [exact H|].
  destruct (position r idx) as [j|]; [|discriminate].
  now rewrite (IH j eq_refl).
Qed.

Lemma position_app_new r idx :
  position r idx = None -> position r (idx ++ [r]) = Some (length idx).
Proof.
  induction idx as [|r0 idx IH]; intros H; cbn [position app length] in *.
  - now rewrite Z.eqb_refl.
  - destruct (Z.eqb r0 r); [discriminate|].
    destruct (position r idx); [discriminate|].
    now rewrite IH.
Qed.

Lemma lookup_extended c (cols : list (string * series)) :
  lookup_column c (map (fun ks => (fst ks, snd ks ++ [Cell.nan])) cols)
  = option_map (fun s => s ++ [Cell.nan]) (lookup_column c cols).
Proof.
  induction cols as [|[k s] cols IH]; [reflexivity|].
  cbn [map lookup_column fst snd]. destruct (String.eqb k c); [reflexivity|].
  exact IH.
Qed.

Lemma lookup_rectangular df c s :
  rectangular df -> lookup_column c (columns df) = Some s ->
  length s = length (index df).
Proof.
  unfold rectangular. generalize (length (index df)). intros n.
  induction 1 as [|[k s0] cols Hk _ IH]; [discriminate|].
  cbn [lookup_column]. destruct (String.eqb k c).
  - now intros [= <-].
  - exact IH.
Qed.

Lemma replace_rectangular (n : nat) c s (cols : list (string * series)) :
  Forall (fun ks => length (snd ks) = n) cols -> length s = n ->
  Forall (fun ks => length (snd ks) = n) (replace_column c s cols).
Proof.
  intros H Hs. induction H as [|[k s0] cols Hk Hcols IH]; cbn [replace_column].
  - now repeat constructor.
  - destruct (String.eqb k c); constructor; assumption.
Qed.

Lemma at_cell df r c i s :
  position r (index df) = Some i -> lookup_column c (columns df) = Some s ->
  at_ df r c = s !! i.
Proof. unfold at_. now intros -> ->. Qed.

Lemma at_inv df r c w :
  at_ df r c = Some w ->
  exists i s, position r (index df) = Some i /\
              lookup_column c (columns df) = Some s /\ s !! i = Some w.
Proof.
  unfold at_. destruct (position r (index df)) as [i|]; [|discriminate].
  destruct (lookup_column c (columns df)) as [s|]; [|discriminate].
  intros H. now exists i, s.
Qed.

(** Setting the cell of a known row and a known column. *)
Lemma set_known df r c v i s :
  rectangular df ->
  position r (index df) = Some i -> lookup_column c (columns df) = Some s ->
  at_ (setitem df c (<[i := v]> s)) r c = Some v /\
  rectangular (setitem df c (<[i := v]> s)) /\
  (forall r' c' w, r' <> r \/ c' <> c -> at_ df r' c' = Some w ->
                   at_ (setitem df c (<[i := v]> s)) r' c' = Some w).
Proof.
  intros Hrect Hp Hc.
  pose proof (lookup_rectangular df c s Hrect Hc) as Hlen.
  assert (Hi : (i < length s)%nat).
  { rewrite Hlen. apply position_lookup in Hp.
    now apply lookup_lt_Some in Hp. }
  split; [|split].
  - rewrite (at_cell _ r c i (<[i := v]> s)); cbn [setitem index columns];
      [|exact Hp|apply FrameFacts.lookup_replace_eq].
    now apply list_lookup_insert_eq.
  - unfold rectangular. cbn [setitem index columns].
    apply replace_rectangular; [exact Hrect|].
    etransitivity; [apply length_insert|exact Hlen].
  - intros r' c' w Hne Hw.
    destruct (at_inv _ _ _ _ Hw) as (j & s' & Hp' & Hc' & Hj).
    destruct (String.eqb_spec c c') as [<-|Nc].
    + assert (s' = s) as -> by congruence.
      rewrite (at_cell _ r' c j (<[i := v]> s)); cbn [setitem index columns];
        [|exact Hp'|apply FrameFacts.lookup_replace_eq].
      etransitivity; [apply list_lookup_insert_ne|exact Hj].
      intros ->. apply position_lookup in Hp, Hp'.
      destruct Hne as [Hne|Hne]; congruence.
    + rewrite (at_cell _ r' c' j s'); cbn [setitem index columns];
        [exact Hj|exact Hp'|].
      now rewrite FrameFacts.lookup_replace_ne.
Qed.

(** A row label the index does not have yet. *)
Lemma new_row df r :
  rectangular df -> position r (index df) = None ->
  let df1 := mkDataFrame (index df ++ [r])
               (map (fun ks => (fst ks, snd ks ++ [Cell.nan])) (columns df)) in
  rectangular df1 /\
  position r (index df1) = Some (length (index df)) /\
  (forall r' c' w, at_ df r' c' = Some w -> at_ df1 r' c' = Some w).
Proof.
  intros Hrect Hp df1. split; [|split].
  - unfold rectangular, df1. cbn [index columns].
    rewrite List.Forall_map, length_app. cbn [length snd].
    eapply List.Forall_impl; [|exact Hrect].
    intros [k s] H. cbn [snd] in *. rewrite length_app. cbn [length]. lia.
  - now apply position_app_new.
  - intros r' c' w Hw.
    destruct (at_inv _ _ _ _ Hw) as (j & s' & Hp' & Hc' & Hj).
    rewrite (at_cell df1 r' c' j (s' ++ [Cell.nan])).
    + etransitivity; [apply lookup_app_l|exact Hj].
      now apply lookup_lt_Some in Hj.
    + now apply position_app_l.
    + unfold df1. cbn [columns]. now rewrite lookup_extended, Hc'.
Qed.

(** A column label the frame does not have yet. *)
Lemma new_column df c :
  rectangular df -> lookup_column c (columns df) = None ->
  let df2 := setitem_scalar df c Cell.nan in
  rectangular df2 /\ index df2 = index df /\
  lookup_column c (columns df2)
  = Some (repeat Cell.nan (length (index df))) /\
  (forall r' c' w, at_ df r' c' = Some w -> at_ df2 r' c' = Some w).
Proof.
  intros Hrect Hc df2. split; [|split; [|split]].
  - unfold rectangular, df2, setitem_scalar. cbn [setitem index columns].
    apply replace_rectangular; [exact Hrect|apply repeat_length].
  - reflexivity.
  - apply FrameFacts.lookup_replace_eq.
  - intros r' c' w Hw.
    destruct (at_inv _ _ _ _ Hw) as (j & s' & Hp' & Hc' & Hj).
    rewrite (at_cell df2 r' c' j s'); [exact Hj|exact Hp'|].
    unfold df2, setitem_scalar. cbn [setitem columns].
    rewrite FrameFacts.lookup_replace_ne; [exact Hc'|congruence].
Qed.

End LocFacts.

Import LocFacts.

(** X11: on a frame with one cell per row in every column,
    [df.loc[r, c] = v] makes the cell at [r], [c] hold [v], whether or
    not the row and the column existed, keeps the frame in that shape,
    and keeps the value of every other cell that existed. *)
Theorem loc_setitem_sets_one_cell (df : DataFrame) (r : Z) (c : string)
  (v : cell) :
  rectangular df ->
  Frame.at_ (Frame.loc_setitem df r c v) r c = Some v /\
  rectangular (Frame.loc_setitem df r c v) /\
  (forall r' c' w, r' <> r \/ c' <> c -> Frame.at_ df r' c' = Some w ->
                   Frame.at_ (Frame.loc_setitem df r c v) r' c' = Some w).
Proof.
  intros Hrect. unfold Frame.loc_setitem.
  destruct (Frame.position r (index df)) as [i|] eqn:Ep.
  - destruct (Frame.lookup_column c (columns df)) as [s|] eqn:Ec.
    + cbv zeta. rewrite Ep, Ec. now apply set_known.
    + destruct (new_column df c Hrect Ec) as (R2 & I2 & C2 & K2).
      cbv zeta. rewrite I2, Ep, C2.
      destruct (set_known (Frame.setitem_scalar df c Cell.nan) r c v i
                  (repeat Cell.nan (length (index df))) R2)
        as (G1 & G2 & G3); [now rewrite I2|exact C2|].
      split; [exact G1|]. split; [exact G2|].
      intros r' c' w Hne Hw. now apply G3, K2.
  - destruct (new_row df r Hrect Ep) as (R1 & P1 & K1).
    set (df1 := mkDataFrame (index df ++ [r])
               (map (fun ks => (fst ks, snd ks ++ [Cell.nan])) (columns df)))
      in *.
    destruct (Frame.lookup_column c (columns df1)) as [s|] eqn:Ec.
    + cbv zeta. rewrite P1, Ec.
      destruct (set_known df1 r c v _ s R1 P1 Ec) as (G1 & G2 & G3).
      split; [exact G1|]. split; [exact G2|].
      intros r' c' w Hne Hw. now apply G3, K1.
    + destruct (new_column df1 c R1 Ec) as (R2 & I2 & C2 & K2).
      cbv zeta. rewrite I2, P1, C2.
      destruct (set_known (Frame.setitem_scalar df1 c Cell.nan) r c v
                  (length (index df))
                  (repeat Cell.nan (length (index df1))) R2)
        as (G1 & G2 & G3); [now rewrite I2|exact C2|].
      split; [exact G1|]. split; [exact G2|].
      intros r' c' w Hne Hw. now apply G3, K2, K1.
Qed.

Lemma loc_setitem_sets_one_cell_witness :
  Frame.at_ (Frame.loc_setitem
               (Frame.create ["y_025"; "y_50"; "y_975"] (range 0 6))
               2 "y_500" (Some 1)) 2 "y_500" = Some (Some 1) /\
  rectangular (Frame.loc_setitem
                 (Frame.create ["y_025"; "y_50"; "y_975"] (range 0 6))
                 2 "y_500" (Some 1)) /\
  (forall r' c' w, r' <> 2%Z \/ c' <> "y_500" ->
      Frame.at_ (Frame.create ["y_025"; "y_50"; "y_975"] (range 0 6)) r' c'
      = Some w ->
      Frame.at_ (Frame.loc_setitem
                   (Frame.create ["y_025"; "y_50"; "y_975"] (range 0 6))
                   2 "y_500" (Some 1)) r' c' = Some w).
Proof.
  apply (loc_setitem_sets_one_cell
           (Frame.create ["y_025"; "y_50"; "y_975"] (range 0 6))
           2 "y_500" (Some 1)).
  repeat constructor.
Defined.
